(** * GoldMetrics: the retrying HTTP client and the idempotent event bus

  A shallow embedding of
  - [backend/app/infrastructure/adapters/api.py]
    ([AIOHTTPAPIClientAdapter], [EODHDAPIClient]) and
  - [backend/app/infrastructure/adapters/event_bus.py]
    ([RedisEventStoreAdapter], [RabbitMQEventBusAdapter]),
  together with the parts of the libraries these adapters are built on
  (the retry controller and the wait strategy of tenacity, the message and
  [process()] contract of aio_pika, the key/expiry behaviour of Redis).

  Coroutines are modelled as functions that return an outcome (a value or a
  raised exception) together with the list of observable events they
  emitted, in chronological order. *)

From Stdlib Require Import ZArith QArith Qminmax Lia.
From stdpp Require Import base strings pretty gmap list.

Set Warnings "-register-all".
Local Open Scope Z_scope.

(* ===================================================================== *)
(** ** Python values and exceptions                                       *)
(* ===================================================================== *)

Module Py.

(** What [json.loads] and [response.json()] produce. Non-integer numbers
    play no role in the adapters and are left out. *)
Inductive json :=
| JNull
| JBool (b : bool)
| JInt (n : Z)
| JStr (s : string)
| JList (l : list json)
| JDict (items : list (string * json)).

(** Python truthiness, as used by [if not x]. *)
Definition truthy (v : json) : bool :=
  match v with
  | JNull => false
  | JBool b => b
  | JInt n => negb (n =? 0)
  | JStr s => negb (String.eqb s "")
  | JList l => match l with [] => false | _ => true end
  | JDict d => match d with [] => false | _ => true end
  end.

(** The exceptions the adapters can meet. [ClientResponseError] is a
    subclass of [ClientError] in aiohttp; [TimeoutError] is
    [asyncio.TimeoutError], which aiohttp raises when the total timeout of a
    request runs out and which is not a [ClientError]; [JSONDecodeError] and
    [UnicodeDecodeError] are unrelated subclasses of [ValueError];
    [RetryError] carries the failed last attempt; [MessageProcessError]
    carries its [__context__], the exception that was being handled when
    it was raised, if any. *)
Inductive exn :=
| ClientError (msg : string)
| ClientResponseError (status : Z)
| TimeoutError
| RetryError (last_attempt : exn)
| RedisError (msg : string)
| AMQPError (msg : string)
| JSONDecodeError
| UnicodeDecodeError
| AttributeError
| ValueError
| MessageProcessError (context : option exn)
| Exception_ (msg : string).

(** [isinstance(error, aiohttp.ClientError)] *)
Definition isinstance_ClientError (e : exn) : bool :=
  match e with
  | ClientError _ | ClientResponseError _ => true
  | _ => false
  end.

(** [isinstance(error, aiohttp.ClientResponseError)] *)
Definition isinstance_ClientResponseError (e : exn) : bool :=
  match e with
  | ClientResponseError _ => true
  | _ => false
  end.

(** [isinstance(error, json.JSONDecodeError)] *)
Definition isinstance_JSONDecodeError (e : exn) : bool :=
  match e with JSONDecodeError => true | _ => false end.

(** [isinstance(error, redis.asyncio.RedisError)] *)
Definition isinstance_RedisError (e : exn) : bool :=
  match e with RedisError _ => true | _ => false end.

(** [isinstance(error, aio_pika.exceptions.AMQPError)] *)
Definition isinstance_AMQPError (e : exn) : bool :=
  match e with AMQPError _ | MessageProcessError _ => true | _ => false end.

(** The outcome of awaiting a coroutine. *)
Inductive outcome (A : Type) :=
| Return (v : A)
| Raise (e : exn).
Arguments Return {A} v.
Arguments Raise {A} e.

End Py.
Import Py.

(* ===================================================================== *)
(** ** tenacity: stop and wait strategies                                 *)
(* ===================================================================== *)

Module Tenacity.

(** [tenacity._utils.MAX_WAIT = sys.maxsize / 2], the float 2^62. *)
Definition MAX_WAIT : Q := inject_Z (2 ^ 62).

(** [stop_after_attempt(n)]: [attempt_number >= max_attempt_number]. *)
Definition stop_after_attempt (max_attempt_number : Z) (attempt_number : nat) : bool :=
  max_attempt_number <=? Z.of_nat attempt_number.

(** [wait_exponential(multiplier, max=MAX_WAIT, exp_base=2, min=0)]:
    [try: exp = exp_base ** (attempt_number - 1); result = multiplier * exp
     except OverflowError: return max]
    and then [max(max(0, min), min(result, max))]. The multiplier is a
    float and [exp] an integer, which the product converts to a float: from
    [2 ** 1024] on the conversion raises [OverflowError] and the wait is
    [max]. Below that, scaling a float by a power of two is exact (a product
    that overflows is infinite and is cut to [max]), so the product is taken
    in the rationals. Attempt numbers start at 1. *)
Definition wait_exponential (multiplier : Q) (attempt_number : nat) : Q :=
  let e := Z.of_nat attempt_number - 1 in
  if 1024 <=? e then MAX_WAIT
  else
    let exp := 2 ^ e in
    let result := (multiplier * inject_Z exp)%Q in
    Qmax (Qmax 0 0) (Qmin result MAX_WAIT).

(** [retry_if_exception(predicate)] applied to a failed attempt. *)
Definition retry_if_exception (predicate : exn -> bool) (e : exn) : bool :=
  predicate e.

End Tenacity.

(* ===================================================================== *)
(** ** api.py: AIOHTTPAPIClientAdapter and EODHDAPIClient                 *)
(* ===================================================================== *)

Module Api.

(** A response as [_request] uses it: [raise_for_status()] looks at
    [status], [json()] yields the parsed body or raises. *)
Record response := {
  status : Z;
  json_body : exn + json
}.

(** What [self.session.request(method, url, **kwargs)] does when entered. *)
Inductive session_outcome :=
| Raises (e : exn)
| Responds (r : response).

(** A session answers the [n]-th call (counted from 0) made through it. *)
Definition session := string -> string -> nat -> session_outcome.

(** [RateLimiter.__init__]: [delay = interval / rate_limit]. *)
Record RateLimiter := {
  rl_rate_limit : Z;
  delay : Q
}.

Definition RateLimiter_init (rate_limit interval : Z) : RateLimiter :=
  {| rl_rate_limit := rate_limit; delay := (inject_Z interval / inject_Z rate_limit)%Q |}.

(** The attributes of [AIOHTTPAPIClientAdapter]; [retry_config] is
    determined by [max_retries] and [backoff_start]. *)
Record client := {
  rate_limit : option Z;
  timeout : Q;
  max_retries : Z;
  backoff_start : Q;
  rate_limiter : option RateLimiter;
  client_session : option session
}.

(** [AIOHTTPAPIClientAdapter.__init__]; [if rate_limit] is false for [None]
    and for [0]. *)
Definition AIOHTTPAPIClientAdapter_init
    (rate_limit : option Z) (timeout : Q) (max_retries : Z) (backoff_start : Q) : client :=
  {| rate_limit := rate_limit;
     timeout := timeout;
     max_retries := max_retries;
     backoff_start := backoff_start;
     rate_limiter :=
       match rate_limit with
       | Some n => if n =? 0 then None else Some (RateLimiter_init n 60)
       | None => None
       end;
     client_session := None |}.

(** [__aenter__]: the session is created on entry. *)
Definition aenter (c : client) (s : session) : client :=
  {| rate_limit := rate_limit c;
     timeout := timeout c;
     max_retries := max_retries c;
     backoff_start := backoff_start c;
     rate_limiter := rate_limiter c;
     client_session := Some s |}.

(** Observable events of a request. *)
Inductive event :=
| Acquire
| LogDebug (msg : string)
| Call (method url : string) (n : nat)
| LogException (msg : string) (e : exn)
| LogRetry (attempt_number : nat) (seconds : Q) (e : exn)
| Sleep (seconds : Q).

(** [response.raise_for_status()] *)
Definition raise_for_status (r : response) : option exn :=
  if 400 <=? status r then Some (ClientResponseError (status r)) else None.

(** The [except] clauses of [_request], in order. *)
Definition _request_except (e : exn) : list event :=
  if isinstance_ClientResponseError e then [LogException "HTTP error occurred" e]
  else if isinstance_ClientError e then [LogException "Request failed" e]
  else [].

(** [AIOHTTPAPIClientAdapter._request]; [calls] is the number of calls the
    session has answered so far. The result carries the new count. *)
Definition _request (c : client) (url method : string) (calls : nat)
  : outcome json * list event * nat :=
  let acquired := match rate_limiter c with Some _ => [Acquire] | None => [] end in
  let pre := acquired ++ [LogDebug "Making HTTP request"] in
  match client_session c with
  | None => (Raise AttributeError, pre, calls)
  | Some s =>
      let called := pre ++ [Call method url calls] in
      match s method url calls with
      | Raises e => (Raise e, called ++ _request_except e, S calls)
      | Responds r =>
          match raise_for_status r with
          | Some e => (Raise e, called ++ _request_except e, S calls)
          | None =>
              match json_body r with
              | inl e => (Raise e, called ++ _request_except e, S calls)
              | inr v => (Return v, called, S calls)
              end
          end
      end
  end.

(** The loop of tenacity's retry controller under [retry_config]:
    [retry=retry_if_exception(isinstance ClientError)],
    [stop=stop_after_attempt(max_retries)],
    [wait=wait_exponential(multiplier=backoff_start)],
    [before_sleep=before_sleep_log(log, 30)]. The loop is [while True] in
    the library; [fuel] bounds the number of attempts explored. *)
Fixpoint retrying (fuel : nat) (c : client) (url method : string)
    (attempt_number calls : nat) : option (outcome json * list event * nat) :=
  match fuel with
  | O => None
  | S fuel' =>
      match _request c url method calls with
      | (Return v, tr, calls') => Some (Return v, tr, calls')
      | (Raise e, tr, calls') =>
          if negb (Tenacity.retry_if_exception isinstance_ClientError e)
          then Some (Raise e, tr, calls')
          else if Tenacity.stop_after_attempt (max_retries c) attempt_number
          then Some (Raise (RetryError e), tr, calls')
          else
            let seconds := Tenacity.wait_exponential (backoff_start c) attempt_number in
            match retrying fuel' c url method (S attempt_number) calls' with
            | Some (out, tr', calls'') =>
                Some (out, tr ++ [LogRetry attempt_number seconds e; Sleep seconds] ++ tr', calls'')
            | None => None
            end
      end
  end.

(** [AIOHTTPAPIClientAdapter.request]: the retry-wrapped [_request], started
    at attempt 1 on a session that has answered no call yet. At most
    [max(1, max_retries)] attempts are made, so this much fuel is enough
    (see [retrying_total]). *)
Definition request (c : client) (url method : string)
  : option (outcome json * list event * nat) :=
  retrying (S (Z.to_nat (max_retries c))) c url method 1 0.

(** The number of underlying calls recorded in a trace. *)
Fixpoint count_calls (tr : list event) : nat :=
  match tr with
  | [] => O
  | Call _ _ _ :: tr' => S (count_calls tr')
  | _ :: tr' => count_calls tr'
  end.

(** [EODHDAPIClient]: the parent's attributes and the key. *)
Record eodhd_client := {
  base : client;
  api_key : string
}.

(** [EODHDAPIClient.__init__(api_key, **kwargs)]. The argument is [None]
    when the key is missing; [not api_key] holds for [None] and for the
    empty string. *)
Definition EODHDAPIClient_init (api_key : option string)
    (rate_limit : option Z) (timeout : Q) (max_retries : Z) (backoff_start : Q)
  : outcome eodhd_client :=
  let parent := AIOHTTPAPIClientAdapter_init rate_limit timeout max_retries backoff_start in
  match api_key with
  | None => Raise ValueError
  | Some k => if String.eqb k "" then Raise ValueError
              else Return {| base := parent; api_key := k |}
  end.

(** The events of [_request] before the session is called. *)
Definition prelude (c : client) : list event :=
  match rate_limiter c with Some _ => [Acquire] | None => [] end
  ++ [LogDebug "Making HTTP request"].

(** An attempt that calls the session once and fails with an error the retry
    predicate accepts. *)
Definition fails_retryably (c : client) (url method : string) (n : nat) (e : exn) : Prop :=
  exists tr, _request c url method n = (Raise e, tr, S n) /\
             count_calls tr = 1%nat /\ isinstance_ClientError e = true.

(** The exception a session raises on its [n]-th call, if it raises. *)
Definition raised (s : session) (url method : string) (n : nat) : exn :=
  match s method url n with
  | Raises e => e
  | Responds r => ClientResponseError (status r)
  end.

End Api.

(* ===================================================================== *)
(** ** event_bus.py: RedisEventStoreAdapter and RabbitMQEventBusAdapter   *)
(* ===================================================================== *)

Module EventBus.

(** [log.adebug], [log.ainfo], [log.aerror], [log.aexception]. *)
Inductive level := LDebug | LInfo | LError | LException.

(** The broker operations the adapter awaits. *)
Inductive broker_op :=
| ConnectRobust
| OpenChannel
| DeclareExchange
| DeclareQueue
| QueueBind
| QueueConsume
| ExchangePublish.

(** Observable events, in the order they happen. [Log] carries the
    exception being handled when the call is [log.aexception]. *)
Inductive event :=
| Log (lvl : level) (msg : string) (exc : option exn)
| RedisFromUrl (url : string)
| RedisExists (key : string) (found : Z)
| RedisSet (key value : string) (ex : Z)
| RedisClose
| Broker (op : broker_op) (arg : string)
| Loads
| IsProcessed (event_id : json)
| Handler (data : json)
| MarkAsProcessed (event_id : json)
| BasicAck
| BasicReject (requeue : bool).

(** A registered handler: an awaitable callable on the parsed payload. Its
    behaviour may depend on the payloads it was invoked with before. *)
Definition handler := list json -> json -> outcome unit.

(** [connection.is_closed], [channel.is_closed]. *)
Record handle := { is_closed : bool }.

(** A message body, by what [json.loads(message.body.decode())] does on it:
    [decode()] raises [UnicodeDecodeError] on bytes that are not UTF-8,
    [json.loads] raises [JSONDecodeError] on text that is not JSON, and
    otherwise the parsed value is returned. [b'\xff'] is a [NotUtf8] body,
    [b'{'] a [NotJson] one. *)
Inductive body :=
| NotUtf8
| NotJson (text : string)
| Json (v : json).

(** The environment (clock, Redis server, broker, the handler's past), the
    attributes of the two adapters and the [processed] flag of the message
    being delivered. [redis_db] maps a key to the instant at which it
    expires; [redis_fault n] is the error, if any, that the Redis client
    raises on its [n]-th call, and [redis_calls] counts the calls made so
    far; [redis] tells whether [self.redis] is set, and [exchange] whether
    [self.exchange] is: the adapter only ever tests it with
    [if not self.exchange], and which channel it was declared on is not
    recorded. *)
Record state := {
  clock : Z;
  redis_fault : nat -> option exn;
  redis_calls : nat;
  redis_db : gmap string Z;
  broker_fault : broker_op -> option exn;
  handled : list json;
  redis_url : string;
  redis : bool;
  rabbitmq_url : string;
  exchange_name : string;
  connection : option handle;
  channel : option handle;
  exchange : bool;
  subscriptions : list (string * handler);
  processed : bool
}.

(** Field updates. *)
Definition set_clock (x : Z) (s : state) : state :=
  {| clock := x; redis_fault := redis_fault s; redis_calls := redis_calls s;
     redis_db := redis_db s; broker_fault := broker_fault s; handled := handled s;
     redis_url := redis_url s; redis := redis s; rabbitmq_url := rabbitmq_url s;
     exchange_name := exchange_name s; connection := connection s;
     channel := channel s; exchange := exchange s; subscriptions := subscriptions s;
     processed := processed s |}.

Definition set_redis_calls (x : nat) (s : state) : state :=
  {| clock := clock s; redis_fault := redis_fault s; redis_calls := x;
     redis_db := redis_db s; broker_fault := broker_fault s; handled := handled s;
     redis_url := redis_url s; redis := redis s; rabbitmq_url := rabbitmq_url s;
     exchange_name := exchange_name s; connection := connection s;
     channel := channel s; exchange := exchange s; subscriptions := subscriptions s;
     processed := processed s |}.

Definition set_redis_db (x : gmap string Z) (s : state) : state :=
  {| clock := clock s; redis_fault := redis_fault s; redis_calls := redis_calls s;
     redis_db := x; broker_fault := broker_fault s; handled := handled s;
     redis_url := redis_url s; redis := redis s; rabbitmq_url := rabbitmq_url s;
     exchange_name := exchange_name s; connection := connection s;
     channel := channel s; exchange := exchange s; subscriptions := subscriptions s;
     processed := processed s |}.

Definition set_handled (x : list json) (s : state) : state :=
  {| clock := clock s; redis_fault := redis_fault s; redis_calls := redis_calls s;
     redis_db := redis_db s; broker_fault := broker_fault s; handled := x;
     redis_url := redis_url s; redis := redis s; rabbitmq_url := rabbitmq_url s;
     exchange_name := exchange_name s; connection := connection s;
     channel := channel s; exchange := exchange s; subscriptions := subscriptions s;
     processed := processed s |}.

Definition set_redis (x : bool) (s : state) : state :=
  {| clock := clock s; redis_fault := redis_fault s; redis_calls := redis_calls s;
     redis_db := redis_db s; broker_fault := broker_fault s; handled := handled s;
     redis_url := redis_url s; redis := x; rabbitmq_url := rabbitmq_url s;
     exchange_name := exchange_name s; connection := connection s;
     channel := channel s; exchange := exchange s; subscriptions := subscriptions s;
     processed := processed s |}.

Definition set_connection (x : option handle) (s : state) : state :=
  {| clock := clock s; redis_fault := redis_fault s; redis_calls := redis_calls s;
     redis_db := redis_db s; broker_fault := broker_fault s; handled := handled s;
     redis_url := redis_url s; redis := redis s; rabbitmq_url := rabbitmq_url s;
     exchange_name := exchange_name s; connection := x; channel := channel s;
     exchange := exchange s; subscriptions := subscriptions s;
     processed := processed s |}.

Definition set_channel (x : option handle) (s : state) : state :=
  {| clock := clock s; redis_fault := redis_fault s; redis_calls := redis_calls s;
     redis_db := redis_db s; broker_fault := broker_fault s; handled := handled s;
     redis_url := redis_url s; redis := redis s; rabbitmq_url := rabbitmq_url s;
     exchange_name := exchange_name s; connection := connection s; channel := x;
     exchange := exchange s; subscriptions := subscriptions s;
     processed := processed s |}.

Definition set_exchange (x : bool) (s : state) : state :=
  {| clock := clock s; redis_fault := redis_fault s; redis_calls := redis_calls s;
     redis_db := redis_db s; broker_fault := broker_fault s; handled := handled s;
     redis_url := redis_url s; redis := redis s; rabbitmq_url := rabbitmq_url s;
     exchange_name := exchange_name s; connection := connection s;
     channel := channel s; exchange := x; subscriptions := subscriptions s;
     processed := processed s |}.

Definition set_subscriptions (x : list (string * handler)) (s : state) : state :=
  {| clock := clock s; redis_fault := redis_fault s; redis_calls := redis_calls s;
     redis_db := redis_db s; broker_fault := broker_fault s; handled := handled s;
     redis_url := redis_url s; redis := redis s; rabbitmq_url := rabbitmq_url s;
     exchange_name := exchange_name s; connection := connection s;
     channel := channel s; exchange := exchange s; subscriptions := x;
     processed := processed s |}.

Definition set_processed (x : bool) (s : state) : state :=
  {| clock := clock s; redis_fault := redis_fault s; redis_calls := redis_calls s;
     redis_db := redis_db s; broker_fault := broker_fault s; handled := handled s;
     redis_url := redis_url s; redis := redis s; rabbitmq_url := rabbitmq_url s;
     exchange_name := exchange_name s; connection := connection s;
     channel := channel s; exchange := exchange s; subscriptions := subscriptions s;
     processed := x |}.

(** *** Coroutines over the state *)

(** A coroutine, run from a state, gives its outcome, the state it leaves
    and the events it emitted, in order. *)
Definition M (A : Type) : Type := state -> outcome A * state * list event.

Definition ret {A} (v : A) : M A := fun s => (Return v, s, []).

Definition raise {A} (e : exn) : M A := fun s => (Raise e, s, []).

(** [r] after the events [tr]. *)
Definition after {A} (tr : list event) (r : outcome A * state * list event)
  : outcome A * state * list event :=
  let '(o, s, tr') := r in (o, s, tr ++ tr').

Definition bind {A B} (m : M A) (k : A -> M B) : M B :=
  fun s =>
    match m s with
    | (Return v, s', tr) => after tr (k v s')
    | (Raise e, s', tr) => (Raise e, s', tr)
    end.

Declare Scope py_scope.
Delimit Scope py_scope with py.
Notation "x <- m ;; k" := (bind m (fun x => k))
  (at level 100, m at next level, right associativity) : py_scope.
Notation "m ;; k" := (bind m (fun _ => k))
  (at level 100, right associativity) : py_scope.
Local Open Scope py_scope.

(** [try: m except ...: h]; [h e] is [None] when no clause matches [e]. *)
Definition try_except {A} (m : M A) (h : exn -> option (M A)) : M A :=
  fun s =>
    match m s with
    | (Return v, s', tr) => (Return v, s', tr)
    | (Raise e, s', tr) =>
        match h e with
        | Some k => after tr (k s')
        | None => (Raise e, s', tr)
        end
    end.

Definition emit (ev : event) : M unit := fun s => (Return tt, s, [ev]).

Definition log (lvl : level) (msg : string) : M unit := emit (Log lvl msg None).

(** [log.aexception(msg)] inside an [except] clause handling [e]. *)
Definition log_exception (msg : string) (e : exn) : M unit :=
  emit (Log LException msg (Some e)).

Definition get {A} (f : state -> A) : M A := fun s => (Return (f s), s, []).

Definition modify (f : state -> state) : M unit := fun s => (Return tt, f s, []).

(** *** Redis *)

(** The argument encoder of the Redis client: strings and integers are
    accepted, other values raise [DataError], a [RedisError]. *)
Definition redis_key (v : json) : outcome string :=
  match v with
  | JStr s => Return s
  | JInt n => Return (pretty n)
  | _ => Raise (RedisError "Invalid input")
  end.

(** One call to the Redis client: it fails if the server does at this call. *)
Definition redis_call : M unit :=
  n <- get redis_calls ;;
  modify (set_redis_calls (S n)) ;;
  fault <- get (fun s => redis_fault s n) ;;
  match fault with
  | Some e => raise e
  | None => ret tt
  end.

Definition redis_command {A} (arg : json) (k : string -> M A) : M A :=
  redis_call ;;
  match redis_key arg with
  | Return key => k key
  | Raise e => raise e
  end.

(** [Redis.from_url(url)] *)
Definition from_url : M unit :=
  url <- get redis_url ;;
  emit (RedisFromUrl url) ;;
  redis_call.

(** [redis.exists(key)]: 1 when the key is present and has not expired. *)
Definition redis_exists (arg : json) : M Z :=
  redis_command arg (fun key =>
    db <- get redis_db ;;
    now <- get clock ;;
    let found :=
      match db !! key with
      | Some expires => if now <? expires then 1 else 0
      | None => 0
      end in
    emit (RedisExists key found) ;;
    ret found).

(** [redis.set(key, value, ex=seconds)] *)
Definition redis_set (arg : json) (value : string) (ex : Z) : M unit :=
  redis_command arg (fun key =>
    now <- get clock ;;
    modify (fun s => set_redis_db (<[key := now + ex]> (redis_db s)) s) ;;
    emit (RedisSet key value ex)).

(** *** RedisEventStoreAdapter *)

Definition except_RedisError {A} (msg : string) (e : exn) : option (M A) :=
  if isinstance_RedisError e then Some (log_exception msg e ;; raise e) else None.

Definition initialize : M unit :=
  connected <- get redis ;;
  if connected then ret tt
  else
    try_except
      (from_url ;;
       modify (set_redis true) ;;
       log LDebug "Redis connection pool initialized.")
      (except_RedisError "Failed to initialize Redis connection pool.").

Definition is_processed (event_id : json) : M bool :=
  emit (IsProcessed event_id) ;;
  initialize ;;
  try_except
    (found <- redis_exists event_id ;;
     log LDebug "Checked if event is processed" ;;
     ret (found =? 1))
    (except_RedisError "Error checking if event is processed.").

Definition mark_as_processed (event_id : json) : M unit :=
  emit (MarkAsProcessed event_id) ;;
  initialize ;;
  try_except
    (redis_set event_id "processed" 2592000 ;;
     log LDebug "Marked event as processed.")
    (except_RedisError "Error marking event as processed.").

Definition store_close : M unit :=
  connected <- get redis ;;
  if connected then
    try_except
      (emit RedisClose ;;
       redis_call ;;
       log LDebug "Redis connection closed.")
      (except_RedisError "Error closing Redis connection.")
  else ret tt.

(** *** aio_pika: the incoming message *)

(** [message.ack()]: refused with [MessageProcessError] once the message has
    been acknowledged or rejected. [handling] is the exception being handled
    at the call, which becomes the [__context__] of the error. *)
Definition ack (handling : option exn) : M unit :=
  done <- get processed ;;
  if done then raise (MessageProcessError handling)
  else emit BasicAck ;; modify (set_processed true).

(** [message.reject(requeue)] *)
Definition reject (requeue : bool) (handling : option exn) : M unit :=
  done <- get processed ;;
  if done then raise (MessageProcessError handling)
  else emit (BasicReject requeue) ;; modify (set_processed true).

(** [async with message.process(): m], with the defaults [requeue=False],
    [reject_on_redelivered=False], [ignore_processed=False]: on a normal
    exit the message is acknowledged, on an exception it is rejected
    without requeue and the exception goes on. *)
Definition process {A} (m : M A) : M A :=
  fun s =>
    match m s with
    | (Return v, s', tr) => after tr ((ack None ;; ret v) s')
    | (Raise e, s', tr) => after tr ((reject false (Some e) ;; raise e) s')
    end.

(** *** RabbitMQEventBusAdapter *)

Definition broker_call (op : broker_op) (arg : string) : M unit :=
  emit (Broker op arg) ;;
  fault <- get (fun s => broker_fault s op) ;;
  match fault with
  | Some e => raise e
  | None => ret tt
  end.

Definition except_AMQPError {A} (msg : string) (e : exn) : option (M A) :=
  if isinstance_AMQPError e then Some (log_exception msg e ;; raise e) else None.

(** [not h or h.is_closed] *)
Definition absent_or_closed (h : option handle) : bool :=
  match h with
  | Some h => is_closed h
  | None => true
  end.

Definition connect : M unit :=
  conn <- get connection ;;
  (if absent_or_closed conn then
     try_except
       (url <- get rabbitmq_url ;;
        broker_call ConnectRobust url ;;
        modify (set_connection (Some {| is_closed := false |})) ;;
        log LDebug "Connected to RabbitMQ.")
       (except_AMQPError "Failed to connect to RabbitMQ.")
   else ret tt) ;;
  chan <- get channel ;;
  (if absent_or_closed chan then
     broker_call OpenChannel "" ;;
     modify (set_channel (Some {| is_closed := false |})) ;;
     log LDebug "RabbitMQ Channel opened"
   else ret tt) ;;
  exch <- get exchange ;;
  if exch then ret tt
  else
    name <- get exchange_name ;;
    broker_call DeclareExchange name ;;
    modify (set_exchange true) ;;
    log LDebug "RabbitMQ Exchange declared".

(** An event to publish: [event.event_type] and [event.__dict__]. *)
Record Event := {
  event_type : string;
  dict : json
}.

Definition publish (ev : Event) : M unit :=
  connect ;;
  let event_name := event_type ev in
  try_except
    (broker_call ExchangePublish event_name ;;
     log LInfo "Published event")
    (except_AMQPError "Failed to publish event.").

(** [json.loads(message.body.decode())] *)
Definition loads (b : body) : M json :=
  emit Loads ;;
  match b with
  | NotUtf8 => raise UnicodeDecodeError
  | NotJson _ => raise JSONDecodeError
  | Json v => ret v
  end.

(** [data.get(key)]: only a dict has [get]; a missing key gives [None]. *)
Fixpoint lookup_item (key : string) (items : list (string * json)) : json :=
  match items with
  | [] => JNull
  | (k, v) :: rest => if String.eqb k key then v else lookup_item key rest
  end.

Definition data_get (data : json) (key : string) : M json :=
  match data with
  | JDict items => ret (lookup_item key items)
  | _ => raise AttributeError
  end.

(** [await handler(data)] *)
Definition call_handler (h : handler) (data : json) : M unit :=
  emit (Handler data) ;;
  past <- get handled ;;
  modify (set_handled (past ++ [data])) ;;
  match h past data with
  | Return _ => ret tt
  | Raise e => raise e
  end.

(** The [except] clauses of [on_message], in order. *)
Definition on_message_except (e : exn) : option (M unit) :=
  if isinstance_JSONDecodeError e then
    Some (log_exception "Invalid JSON in message." e ;;
          reject false (Some e) ;;
          raise e)
  else
    Some (log_exception "Error processing message." e ;;
          reject true (Some e)).

(** The block that the [try] of [on_message] guards. *)
Definition on_message_body (h : handler) (b : body) : M unit :=
  data <- loads b ;;
  event_id <- data_get data "event_id" ;;
  if negb (truthy event_id) then
    log LError "Received event without event_id. Rejecting message." ;;
    reject false None
  else
    duplicate <- is_processed event_id ;;
    if duplicate then
      log LInfo "Duplicate event received. Skipping processing."
    else
      call_handler h data ;;
      mark_as_processed event_id ;;
      log LInfo "Event processed and marked as processed.".

(** The [try] statement of [on_message]: the block under its two clauses. *)
Definition on_message_try (h : handler) (b : body) : M unit :=
  try_except (on_message_body h b) on_message_except.

(** The closure [on_message] that [subscribe] hands to [queue.consume]: the
    [try] statement inside [async with message.process()]. *)
Definition on_message (h : handler) (b : body) : M unit :=
  process (on_message_try h b).

(** The broker delivers a message: a fresh message object, not yet
    processed, is handed to [on_message]. *)
Definition deliver (h : handler) (b : body) : M unit :=
  modify (set_processed false) ;;
  on_message h b.

Definition subscribe (event_name : string) (h : handler) : M unit :=
  connect ;;
  let queue := event_name +:+ "_queue" in
  broker_call DeclareQueue queue ;;
  broker_call QueueBind event_name ;;
  log LInfo "Queue bound to exchange." ;;
  try_except
    (broker_call QueueConsume queue ;;
     modify (fun s => set_subscriptions (subscriptions s ++ [(event_name, h)]) s))
    (except_AMQPError "Failed to subscribe to event.").

(** The processing steps of one delivery, as they show in the trace. *)
Inductive step := Parse | DedupeCheck | Handle | MarkProcessed | Acknowledge.

Definition step_of (ev : event) : option step :=
  match ev with
  | Loads => Some Parse
  | IsProcessed _ => Some DedupeCheck
  | Handler _ => Some Handle
  | MarkAsProcessed _ => Some MarkProcessed
  | BasicAck => Some Acknowledge
  | _ => None
  end.

Definition steps (tr : list event) : list step := omap step_of tr.

(** Whether the marker of [key] is present and has not expired. *)
Definition live (s : state) (key : string) : bool :=
  match redis_db s !! key with
  | Some expires => clock s <? expires
  | None => false
  end.

End EventBus.

(* ===================================================================== *)
(** ** Concrete sessions, handlers and states                             *)
(* ===================================================================== *)

Module Examples.
Import Api EventBus.

Definition ok_response (v : json) : session_outcome :=
  Responds {| status := 200; json_body := inr v |}.

(** Raises a transport error on its first [k] calls, then answers. *)
Definition flaky_session (k : nat) : session :=
  fun _ _ n =>
    if (n <? k)%nat then Raises (ClientError "Temporary error.")
    else ok_response (JDict [("retry", JStr "succeeded")]).

(** Raises a transport error on every call. *)
Definition failing_session : session :=
  fun _ _ _ => Raises (ClientError "Temporary error.").

(** Runs into the total timeout on every call. *)
Definition timing_out_session : session :=
  fun _ _ _ => Raises TimeoutError.

(** Runs into the total timeout on its first [k] calls, then answers. *)
Definition slow_start_session (k : nat) : session :=
  fun _ _ n =>
    if (n <? k)%nat then Raises TimeoutError
    else ok_response (JDict [("retry", JStr "succeeded")]).

(** Answers every call with the given status. *)
Definition status_session (st : Z) : session :=
  fun _ _ _ => Responds {| status := st; json_body := inr (JDict []) |}.

Definition test_client (max_retries : Z) (backoff_start : Q) (s : session) : client :=
  aenter (AIOHTTPAPIClientAdapter_init None 5 max_retries backoff_start) s.

(** Nothing connected, an empty Redis, no faults. *)
Definition state0 : state :=
  {| clock := 0;
     redis_fault := fun _ => None;
     redis_calls := 0;
     redis_db := ∅;
     broker_fault := fun _ => None;
     handled := [];
     redis_url := "redis://localhost";
     redis := false;
     rabbitmq_url := "amqp://localhost";
     exchange_name := "events_exchange";
     connection := None;
     channel := None;
     exchange := false;
     subscriptions := [];
     processed := false |}.

Definition notification : json :=
  JDict [("event_id", JStr "e1"); ("event_type", JStr "Notification");
         ("occurred_on", JStr "2025-01-01 00:00:00+00:00"); ("text", JStr "X")].

Definition ok_handler : handler := fun _ _ => Return tt.

Definition failing_handler : handler := fun _ _ => Raise (Exception_ "boom").

(** A broker that refuses to start consuming. *)
Definition consume_refused (s : state) : state :=
  {| clock := clock s; redis_fault := redis_fault s; redis_calls := redis_calls s;
     redis_db := redis_db s;
     broker_fault := fun op =>
       match op with
       | QueueConsume => Some (AMQPError "consume refused")
       | _ => broker_fault s op
       end;
     handled := handled s; redis_url := redis_url s; redis := redis s;
     rabbitmq_url := rabbitmq_url s; exchange_name := exchange_name s;
     connection := connection s; channel := channel s; exchange := exchange s;
     subscriptions := subscriptions s; processed := processed s |}.

End Examples.

(* ===================================================================== *)
(** ** More of api.py: the token bucket and what a trace records          *)
(* ===================================================================== *)

Module Limiter.

(** What happens to a [RateLimiter]: one turn of the loop of [_fill_tokens]
    (the sleep is over and [put_nowait(1)] runs), a caller entering
    [acquire()], or [stop()]. *)
Inductive step := Tick | Acquire | Stop.

(** The bucket: the limiter it belongs to ([queue] has
    [maxsize = rate_limit]), the size of [queue], the callers suspended in
    [queue.get()], the calls of [acquire()] that have returned, and whether
    the refill task still runs ([_active] set and [_task] not cancelled). *)
Record bucket := {
  limiter : Api.RateLimiter;
  tokens : nat;
  waiting : nat;
  granted : nat;
  running : bool
}.

(** [RateLimiter.__init__]: an empty queue and a running refill task. *)
Definition init (rate_limit interval : Z) : bucket :=
  {| limiter := Api.RateLimiter_init rate_limit interval;
     tokens := 0; waiting := 0; granted := 0; running := true |}.

(** [asyncio.Queue.full()]: never full when [maxsize <= 0]. *)
Definition full (b : bucket) : bool :=
  (0 <? Api.rl_rate_limit (limiter b)) && (Api.rl_rate_limit (limiter b) <=? Z.of_nat (tokens b)).

(** One turn of [_fill_tokens]: [QueueFull] is suppressed, so a token that
    does not fit is dropped; a token put while a caller is suspended in
    [get()] goes to that caller. *)
Definition fill (b : bucket) : bucket :=
  if negb (running b) then b
  else if full b then b
  else
    match waiting b with
    | S w =>
        {| limiter := limiter b; tokens := tokens b; waiting := w;
           granted := S (granted b); running := running b |}
    | O =>
        {| limiter := limiter b; tokens := S (tokens b); waiting := 0;
           granted := granted b; running := running b |}
    end.

(** [acquire()]: [queue.get()] takes a token, or suspends when there is none. *)
Definition acquire (b : bucket) : bucket :=
  match tokens b with
  | S t =>
      {| limiter := limiter b; tokens := t; waiting := waiting b;
         granted := S (granted b); running := running b |}
  | O =>
      {| limiter := limiter b; tokens := 0; waiting := S (waiting b);
         granted := granted b; running := running b |}
  end.

(** [stop()]: [_active = False] and the refill task is cancelled. *)
Definition stop (b : bucket) : bucket :=
  {| limiter := limiter b; tokens := tokens b; waiting := waiting b;
     granted := granted b; running := false |}.

Definition do_step (b : bucket) (st : step) : bucket :=
  match st with
  | Tick => fill b
  | Acquire => acquire b
  | Stop => stop b
  end.

Definition run (steps : list step) (b : bucket) : bucket := foldl do_step b steps.

(** The number of turns of the refill loop among the steps. *)
Fixpoint ticks (steps : list step) : nat :=
  match steps with
  | [] => O
  | Tick :: rest => S (ticks rest)
  | _ :: rest => ticks rest
  end.

(** The queue respects its [maxsize] (when it has one), and nobody is
    suspended in [get()] while it holds a token. *)
Definition bucket_ok (b : bucket) : Prop :=
  (0 < Api.rl_rate_limit (limiter b) ->
   Z.of_nat (tokens b) <= Api.rl_rate_limit (limiter b)) /\
  (tokens b = 0%nat \/ waiting b = 0%nat).

End Limiter.

Module Trace.
Import Api.

(** The waits on the rate limiter recorded in a trace. *)
Fixpoint count_acquires (tr : list event) : nat :=
  match tr with
  | [] => O
  | Acquire :: tr' => S (count_acquires tr')
  | _ :: tr' => count_acquires tr'
  end.

(** The backoff sleeps recorded in a trace. *)
Fixpoint count_sleeps (tr : list event) : nat :=
  match tr with
  | [] => O
  | Sleep _ :: tr' => S (count_sleeps tr')
  | _ :: tr' => count_sleeps tr'
  end.

(** The calls made through the session, in order. *)
Fixpoint calls_of (tr : list event) : list (string * string * nat) :=
  match tr with
  | [] => []
  | Call method url n :: tr' => (method, url, n) :: calls_of tr'
  | _ :: tr' => calls_of tr'
  end.

(** A call through the session or a backoff sleep. *)
Inductive beat := Called | Slept.

(** The calls and the backoff sleeps of a trace, in the order they happen. *)
Fixpoint beats (tr : list event) : list beat :=
  match tr with
  | [] => []
  | Call _ _ _ :: tr' => Called :: beats tr'
  | Sleep _ :: tr' => Slept :: beats tr'
  | _ :: tr' => beats tr'
  end.

(** [n] calls with one sleep between each two of them: call, sleep, call,
    ..., call. *)
Fixpoint alternating (n : nat) : list beat :=
  match n with
  | O => []
  | S n' =>
      Called :: match n' with
                | O => []
                | S _ => Slept :: alternating n'
                end
  end.

End Trace.

(* ===================================================================== *)
(** ** More of event_bus.py: closing and entering the bus                 *)
(* ===================================================================== *)

Module Lifecycle.
Import EventBus.

(** What [RabbitMQEventBusAdapter.close] does, in order. *)
Inductive close_event :=
| ChannelClose
| ConnectionClose
| CloseLog (msg : string).

(** [h and not h.is_closed] *)
Definition is_open (h : option handle) : bool :=
  match h with
  | Some h => negb (is_closed h)
  | None => false
  end.

(** [RabbitMQEventBusAdapter.close]. [channel_close] and [connection_close]
    are what [channel.close()] and [connection.close()] raise, if they do; a
    handle that was closed answers [is_closed] from then on. The adapter
    keeps [self.channel], [self.connection] and [self.exchange]. *)
Definition close (channel_close connection_close : option exn) (s : state)
  : outcome unit * state * list close_event :=
  let '(o1, s1, tr1) :=
    if is_open (channel s) then
      match channel_close with
      | Some e => (Raise e, s, [ChannelClose])
      | None =>
          (Return tt, set_channel (Some {| is_closed := true |}) s,
           [ChannelClose; CloseLog "RabbitMQ Channel closed."])
      end
    else (Return tt, s, []) in
  match o1 with
  | Raise e => (Raise e, s1, tr1)
  | Return _ =>
      if is_open (connection s1) then
        match connection_close with
        | Some e => (Raise e, s1, tr1 ++ [ConnectionClose])
        | None =>
            (Return tt, set_connection (Some {| is_closed := true |}) s1,
             tr1 ++ [ConnectionClose; CloseLog "RabbitMQ Connection closed."])
        end
      else (Return tt, s1, tr1)
  end.

(** [RabbitMQEventBusAdapter.__aenter__]: the event store first, then the
    broker. *)
Definition aenter : M unit := bind initialize (fun _ => connect).

(** The acknowledgements and rejections sent for a message. *)
Fixpoint count_settled (tr : list event) : nat :=
  match tr with
  | [] => O
  | BasicAck :: tr' => S (count_settled tr')
  | BasicReject _ :: tr' => S (count_settled tr')
  | _ :: tr' => count_settled tr'
  end.

End Lifecycle.

(* ===================================================================== *)
(** ** event_handlers.py and models.py: what meets the adapters           *)
(* ===================================================================== *)

Module Handlers.

(** [NotificationHandler.handle(message)], as [subscribe] registers it:
    [if message:] then [message.text] is read to be sent. The message that
    [on_message] passes is what [json.loads] returned, and none of those
    values has an attribute [text]: reading it raises [AttributeError],
    which the [except] clause of [handle] logs and raises again. *)
Definition NotificationHandler_handle : EventBus.handler :=
  fun _ message => if truthy message then Raise AttributeError else Return tt.

End Handlers.

Module Domain.

Definition historical_data_keys : list string :=
  ["code"; "date"; "open"; "high"; "low"; "close"; "adjusted_close"; "volume"].

Definition technical_data_keys : list string :=
  ["code"; "MarketCapitalization"; "Beta"; "ema_50d"; "ema_200d"; "hi_250d";
   "low_250d"; "prev_close"; "change"; "change_p"; "avgvol_14d"; "avgvol_50d";
   "avgvol_200d"].

(** [d.get(key)]: [None] for a missing key. *)
Definition dict_get (d : gmap string json) (key : string) : json :=
  default JNull (d !! key).

(** [{key: d.get(key) for key in keys}] *)
Definition comprehension (keys : list string) (d : gmap string json) : gmap string json :=
  list_to_map ((fun key => (key, dict_get d key)) <$> keys).

(** [FinancialInstrumentAR.filter_end_of_day_data] *)
Definition filter_end_of_day_data (end_of_day_data : gmap string json)
  : gmap string json * gmap string json :=
  (comprehension historical_data_keys end_of_day_data,
   comprehension technical_data_keys end_of_day_data).

End Domain.

(* ===================================================================== *)
(** ** More concrete states                                               *)
(* ===================================================================== *)

Module Scenarios.
Import EventBus.

(** The state [s] with a Redis server that answers as [f] says. *)
Definition with_redis_fault (f : nat -> option exn) (s : state) : state :=
  {| clock := clock s; redis_fault := f; redis_calls := redis_calls s;
     redis_db := redis_db s; broker_fault := broker_fault s; handled := handled s;
     redis_url := redis_url s; redis := redis s; rabbitmq_url := rabbitmq_url s;
     exchange_name := exchange_name s; connection := connection s;
     channel := channel s; exchange := exchange s; subscriptions := subscriptions s;
     processed := processed s |}.

(** A Redis server that is down. *)
Definition redis_down : nat -> option exn :=
  fun _ => Some (RedisError "Connection refused").

(** A Redis server that fails on its [n]-th call only. *)
Definition redis_fails_at (n : nat) : nat -> option exn :=
  fun i => if (i =? n)%nat then Some (RedisError "Connection reset") else None.

(** A handler that raises [JSONDecodeError], as one that parses a field of
    the payload with [json.loads] may. *)
Definition decoding_handler : handler := fun _ _ => Raise JSONDecodeError.

(** The fields of [Examples.notification]. *)
Definition notification_items : list (string * json) :=
  [("event_id", JStr "e1"); ("event_type", JStr "Notification");
   ("occurred_on", JStr "2025-01-01 00:00:00+00:00"); ("text", JStr "X")].

(** A bus on which [connect] has succeeded. *)
Definition connected (s : state) : state :=
  set_exchange true
    (set_channel (Some {| is_closed := false |})
       (set_connection (Some {| is_closed := false |}) s)).

End Scenarios.

(* ===================================================================== *)
(** ** The retrying HTTP client: properties                               *)
(* ===================================================================== *)

Import Api EventBus Examples.

Lemma count_calls_app tr1 tr2 :
  count_calls (tr1 ++ tr2) = (count_calls tr1 + count_calls tr2)%nat.
Proof.
  induction tr1 as [|ev tr1 IH]; simpl; [done|].
  destruct ev; simpl; lia.
Qed.

Lemma count_calls_prelude c : count_calls (prelude c) = 0%nat.
Proof. unfold prelude. destruct (rate_limiter c); reflexivity. Qed.

Lemma _request_raises c s url method n e :
  client_session c = Some s ->
  s method url n = Raises e ->
  _request c url method n =
    (Raise e, prelude c ++ [Call method url n] ++ _request_except e, S n).
Proof.
  intros Hs He. unfold _request, prelude. rewrite Hs, He.
  by rewrite <- !app_assoc.
Qed.

Lemma _request_status_error c s url method n r :
  client_session c = Some s ->
  s method url n = Responds r ->
  400 <= status r ->
  _request c url method n =
    (Raise (ClientResponseError (status r)),
     prelude c ++ [Call method url n;
                   LogException "HTTP error occurred" (ClientResponseError (status r))],
     S n).
Proof.
  intros Hs Hr Hst. unfold _request, prelude, raise_for_status. rewrite Hs, Hr.
  destruct (400 <=? status r) eqn:E; [|lia].
  by rewrite <- !app_assoc.
Qed.

Lemma _request_returns c s url method n r v :
  client_session c = Some s ->
  s method url n = Responds r ->
  status r < 400 ->
  json_body r = inr v ->
  _request c url method n = (Return v, prelude c ++ [Call method url n], S n).
Proof.
  intros Hs Hr Hst Hv. unfold _request, prelude, raise_for_status. rewrite Hs, Hr, Hv.
  destruct (400 <=? status r) eqn:E; [lia|].
  by rewrite <- !app_assoc.
Qed.

Lemma retrying_total c url method f a n :
  (1 <= f)%nat -> max_retries c < Z.of_nat f + Z.of_nat a ->
  is_Some (retrying f c url method a n).
Proof.
  revert a n. induction f as [|f IH]; intros a n Hf Hb; [lia|].
  simpl. destruct (_request c url method n) as [[[v|e] tr] n']; [eauto|].
  destruct (negb _); [eauto|].
  unfold Tenacity.stop_after_attempt.
  destruct (max_retries c <=? Z.of_nat a) eqn:E; [eauto|].
  apply Z.leb_gt in E.
  destruct (IH (S a) n') as [[[out tr'] n''] ->]; [lia|lia|eauto].
Qed.

Lemma transport_error_fails c s url method n msg :
  client_session c = Some s ->
  s method url n = Raises (ClientError msg) ->
  fails_retryably c url method n (ClientError msg).
Proof.
  intros Hs He. eexists. split; [by eapply _request_raises|].
  split; [|done]. rewrite !count_calls_app, count_calls_prelude. reflexivity.
Qed.

Lemma client_error_fails c s url method n e :
  client_session c = Some s ->
  s method url n = Raises e ->
  isinstance_ClientError e = true ->
  fails_retryably c url method n e.
Proof.
  intros Hs He Hretry. eexists. split; [by eapply _request_raises|].
  split; [|done]. rewrite !count_calls_app, count_calls_prelude.
  unfold _request_except. by repeat case_match.
Qed.

Lemma _request_except_uncaught e :
  isinstance_ClientError e = false -> _request_except e = [].
Proof. by destruct e. Qed.

Lemma status_error_fails c s url method n r :
  client_session c = Some s ->
  s method url n = Responds r ->
  400 <= status r ->
  fails_retryably c url method n (ClientResponseError (status r)).
Proof.
  intros Hs Hr Hst. eexists. split; [by eapply _request_status_error|].
  split; [|done]. rewrite !count_calls_app, count_calls_prelude. reflexivity.
Qed.

Lemma retrying_skip c url method k :
  forall f a n out tr' n',
    (forall i, (i < k)%nat ->
       Z.of_nat (a + i) < max_retries c /\
       exists e, fails_retryably c url method (n + i) e) ->
    retrying f c url method (a + k) (n + k) = Some (out, tr', n') ->
    exists tr, retrying (k + f) c url method a n = Some (out, tr, n') /\
               count_calls tr = (k + count_calls tr')%nat.
Proof.
  induction k as [|k IH]; intros f a n out tr' n' Hfail Hrest.
  - rewrite !Nat.add_0_r in Hrest. eauto.
  - destruct (Hfail 0%nat) as [Hlt [e (tr0 & Hreq & Hcount & Hretry)]]; [lia|].
    rewrite !Nat.add_0_r in *.
    destruct (IH f (S a) (S n) out tr' n') as (tr & Hrun & Hc).
    + intros i Hi. destruct (Hfail (S i)) as [Hlt' He]; [lia|].
      replace (S a + i)%nat with (a + S i)%nat by lia.
      replace (S n + i)%nat with (n + S i)%nat by lia. done.
    + replace (S a + k)%nat with (a + S k)%nat by lia.
      replace (S n + k)%nat with (n + S k)%nat by lia. done.
    + simpl. rewrite Hreq. unfold Tenacity.retry_if_exception. rewrite Hretry. simpl.
      unfold Tenacity.stop_after_attempt.
      destruct (max_retries c <=? Z.of_nat a) eqn:E; [apply Z.leb_le in E; lia|].
      rewrite Hrun. eexists. split; [done|].
      rewrite count_calls_app, Hcount. simpl. rewrite Hc. lia.
Qed.

Lemma retrying_returns c url method f a n v tr :
  _request c url method n = (Return v, tr, S n) ->
  retrying (S f) c url method a n = Some (Return v, tr, S n).
Proof. intros H. simpl. by rewrite H. Qed.

Lemma retrying_exhausted c url method f a n e :
  fails_retryably c url method n e ->
  max_retries c <= Z.of_nat a ->
  exists tr, retrying (S f) c url method a n = Some (Raise (RetryError e), tr, S n) /\
             count_calls tr = 1%nat.
Proof.
  intros (tr & Hreq & Hcount & Hretry) Hstop. simpl. rewrite Hreq.
  unfold Tenacity.retry_if_exception. rewrite Hretry. simpl.
  unfold Tenacity.stop_after_attempt.
  destruct (max_retries c <=? Z.of_nat a) eqn:E; [|apply Z.leb_gt in E; lia].
  eauto.
Qed.

Lemma request_all_fail c url method (err : nat -> exn) :
  (forall i, fails_retryably c url method i (err i)) ->
  exists tr,
    request c url method =
      Some (Raise (RetryError (err (Z.to_nat (Z.max 1 (max_retries c)) - 1)%nat)), tr, Z.to_nat (Z.max 1 (max_retries c))) /\
    count_calls tr = Z.to_nat (Z.max 1 (max_retries c)).
Proof.
  intros Hfail. unfold request.
  set (N := Z.to_nat (Z.max 1 (max_retries c))).
  assert (HN : (1 <= N)%nat) by (unfold N; lia).
  assert (HN' : max_retries c <= Z.of_nat N) by (unfold N; lia).
  destruct (retrying_exhausted c url method (Z.to_nat (max_retries c) - (N - 1)) N (N - 1)
              (err (N - 1)%nat)) as (tr1 & Hlast & Hc1); [done|lia|].
  replace (S (N - 1)) with N in Hlast by lia.
  destruct (retrying_skip c url method (N - 1)
              (S (Z.to_nat (max_retries c) - (N - 1))) 1 0
              (Raise (RetryError (err (N - 1)%nat))) tr1 N) as (tr & Hrun & Hc).
  - intros i Hi. split; [unfold N in *; lia|]. simpl. eauto.
  - simpl (0 + _)%nat. replace (1 + (N - 1))%nat with N by lia. done.
  - exists tr. split; [|lia].
    rewrite <- Hrun. f_equal. unfold N. lia.
Qed.

Lemma request_fail_then_return c url method k v tr_ok :
  Z.of_nat k < max_retries c ->
  (forall i, (i < k)%nat -> exists e, fails_retryably c url method i e) ->
  _request c url method k = (Return v, tr_ok, S k) ->
  count_calls tr_ok = 1%nat ->
  exists tr, request c url method = Some (Return v, tr, S k) /\ count_calls tr = S k.
Proof.
  intros Hk Hfail Hok Hcount. unfold request.
  destruct (retrying_skip c url method k (S (Z.to_nat (max_retries c) - k)) 1 0
              (Return v) tr_ok (S k)) as (tr & Hrun & Hc).
  - intros i Hi. split; [lia|]. simpl. eauto.
  - simpl (0 + _)%nat. by apply retrying_returns.
  - exists tr. split; [|lia]. rewrite <- Hrun. f_equal. lia.
Qed.

Lemma count_calls__request_except e : count_calls (_request_except e) = 0%nat.
Proof. unfold _request_except. by repeat case_match. Qed.

Lemma _request_retryable_one_call c url method n e tr n' :
  _request c url method n = (Raise e, tr, n') ->
  isinstance_ClientError e = true ->
  count_calls tr = 1%nat.
Proof.
  unfold _request. intros H He.
  destruct (client_session c) as [s|]; [|by simplify_eq].
  repeat case_match; simplify_eq;
    rewrite !count_calls_app, ?count_calls__request_except; simpl;
    destruct (rate_limiter c); reflexivity.
Qed.

Lemma _request_no_sleep c url method n out tr n' w :
  _request c url method n = (out, tr, n') -> Sleep w ∉ tr.
Proof.
  unfold _request, _request_except. intros H Hin.
  repeat case_match; simplify_eq;
    repeat (apply elem_of_app in Hin as [Hin|Hin]);
    repeat (apply elem_of_cons in Hin as [Hin|Hin]; [discriminate|]);
    by apply elem_of_nil in Hin.
Qed.

Lemma retrying_sleeps c url method f :
  forall a n out tr n',
    retrying f c url method a n = Some (out, tr, n') ->
    forall pre w post, tr = pre ++ Sleep w :: post ->
      (1 <= count_calls pre)%nat /\
      w = Tenacity.wait_exponential (backoff_start c) (a + count_calls pre - 1) /\
      exists pre' e, pre = pre' ++ [LogRetry (a + count_calls pre - 1) w e].
Proof.
  induction f as [|f IH]; intros a n out tr n' Hrun pre w post Htr; [done|].
  simpl in Hrun.
  destruct (_request c url method n) as [[[v|e] tr0] n0] eqn:Hreq.
  { simplify_eq. exfalso. eapply _request_no_sleep; [done|].
    apply elem_of_app. right. left. }
  unfold Tenacity.retry_if_exception in Hrun.
  destruct (isinstance_ClientError e) eqn:Hretry; simpl in Hrun; cycle 1.
  { simplify_eq. exfalso. eapply _request_no_sleep; [done|].
    apply elem_of_app. right. left. }
  destruct (Tenacity.stop_after_attempt _ _).
  { simplify_eq. exfalso. eapply _request_no_sleep; [done|].
    apply elem_of_app. right. left. }
  destruct (retrying f c url method (S a) n0) as [[[out' tr'] n'']|] eqn:Hrec; [|done].
  injection Hrun as <- <- <-.
  pose proof (_request_retryable_one_call _ _ _ _ _ _ _ Hreq Hretry) as Hone.
  apply app_eq_inv in Htr as [(k & Htr0 & Hk)|(k & Hpre & Hk)].
  - exfalso. destruct k as [|ev k]; [done|]. simpl in Hk. simplify_eq.
    eapply _request_no_sleep; [done|]. apply elem_of_app. right. left.
  - destruct k as [|ev k]; [done|]. simpl in Hk. simplify_eq.
    destruct k as [|ev k]; simpl in *; simplify_eq.
    + rewrite count_calls_app, Hone.
      replace (a + (1 + count_calls [LogRetry a _ e]) - 1)%nat with a by (simpl; lia).
      split; [lia|]. split; [done|]. by eexists _, _.
    + destruct (IH _ _ _ _ _ Hrec _ _ _ eq_refl) as (Hge & Hw & pre' & e' & Hpre').
      rewrite count_calls_app, Hone.
      replace (a + (1 + count_calls (LogRetry a _ e :: Sleep _ :: k)) - 1)%nat
        with (S a + count_calls k - 1)%nat by (simpl; lia).
      split; [lia|]. split; [done|].
      exists (tr0 ++ LogRetry a (Tenacity.wait_exponential (backoff_start c) a) e
                :: Sleep (Tenacity.wait_exponential (backoff_start c) a) :: pre'), e'.
      rewrite Hpre' at 1. by rewrite <- app_assoc.
Qed.

(** The wrapped request always comes to an end: the fuel [request] gives the
    retry loop is never used up. *)
Lemma request_total c url method : is_Some (request c url method).
Proof. apply retrying_total; lia. Qed.

(** C4 (as amended). If the session raises an [aiohttp.ClientError] on the
    first [k] calls, with [k < max_retries], and answers the next one with a
    status below 400 and a JSON body, then [request] returns that body and
    the session has been called exactly [k + 1] times. *)
Theorem request_retry_count_bound
    (c : client) (s : session) (url method : string) (k : nat)
    (r : response) (v : json) :
  client_session c = Some s ->
  Z.of_nat k < max_retries c ->
  (forall i, (i < k)%nat ->
     exists e, s method url i = Raises e /\ isinstance_ClientError e = true) ->
  s method url k = Responds r ->
  status r < 400 ->
  json_body r = inr v ->
  exists tr,
    request c url method = Some (Return v, tr, S k) /\ count_calls tr = S k.
Proof.
  intros Hs Hk Hfail Hr Hst Hv.
  apply (request_fail_then_return c url method k v (prelude c ++ [Call method url k])).
  - done.
  - intros i Hi. destruct (Hfail i Hi) as (e & He & Hretry).
    exists e. by eapply client_error_fails.
  - by eapply _request_returns.
  - rewrite count_calls_app, count_calls_prelude. reflexivity.
Qed.

Lemma request_retry_count_bound_witness :
  exists tr,
    request (test_client 2 (1 # 100) (flaky_session 1)) "http://example.com" "GET"
      = Some (Return (JDict [("retry", JStr "succeeded")]), tr, 2%nat)
    /\ count_calls tr = 2%nat.
Proof.
  apply (request_retry_count_bound
           (test_client 2 (1 # 100) (flaky_session 1)) (flaky_session 1)
           "http://example.com" "GET" 1
           {| status := 200; json_body := inr (JDict [("retry", JStr "succeeded")]) |}).
  - reflexivity.
  - reflexivity.
  - intros i Hi. exists (ClientError "Temporary error.").
    destruct i; [split; reflexivity | lia].
  - reflexivity.
  - reflexivity.
  - reflexivity.
Defined.

(** C4, as stated, fails when the transport error is a timeout: the session
    has a total timeout only, aiohttp raises its expiry as
    [asyncio.TimeoutError], the retry predicate rejects it, and [request]
    raises it after the first call although the second call would have
    succeeded and [max_retries] is 3. *)
Lemma request_retry_count_bound_counterexample :
  slow_start_session 1 "GET" "http://example.com" 0%nat = Raises TimeoutError /\
  slow_start_session 1 "GET" "http://example.com" 1%nat
    = ok_response (JDict [("retry", JStr "succeeded")]) /\
  1 < max_retries (test_client 3 1 (slow_start_session 1)) /\
  request (test_client 3 1 (slow_start_session 1)) "http://example.com" "GET"
    = Some (Raise TimeoutError,
            [LogDebug "Making HTTP request"; Call "GET" "http://example.com" 0],
            1%nat).
Proof. repeat apply conj; reflexivity. Qed.

(** C3 (as amended). If the session raises an [aiohttp.ClientError] on
    every call, [request] raises after exactly [max(1, max_retries)] calls,
    and the error is a [RetryError] that wraps the exception of the last
    call. An exception that is not an [aiohttp.ClientError], such as the
    [asyncio.TimeoutError] of a timeout, is raised as it is after the first
    call. *)
Theorem request_retry_exhaustion (c : client) (s : session) (url method : string) :
  client_session c = Some s ->
  let N := Z.to_nat (Z.max 1 (max_retries c)) in
  ((forall i, exists e, s method url i = Raises e /\ isinstance_ClientError e = true) ->
   exists e tr,
     s method url (N - 1)%nat = Raises e /\
     request c url method = Some (Raise (RetryError e), tr, N) /\
     count_calls tr = N) /\
  (forall e,
     s method url 0%nat = Raises e -> isinstance_ClientError e = false ->
     request c url method = Some (Raise e, prelude c ++ [Call method url 0], 1%nat)).
Proof.
  intros Hs N. split.
  - intros Hfail.
    destruct (request_all_fail c url method (raised s url method)) as (tr & Hrun & Hc).
    + intros i. destruct (Hfail i) as (e & He & Hretry).
      unfold raised. rewrite He. by eapply client_error_fails.
    + destruct (Hfail (N - 1)%nat) as (e & He & Hretry).
      exists e, tr. split; [done|]. split; [|done].
      rewrite Hrun. unfold raised. fold N. by rewrite He.
  - intros e He Hnot. unfold request. simpl.
    rewrite (_request_raises c s url method 0 e Hs He).
    unfold Tenacity.retry_if_exception. rewrite Hnot. simpl.
    by rewrite (_request_except_uncaught e Hnot).
Qed.

Lemma request_retry_exhaustion_witness :
  (exists e tr,
     failing_session "GET" "http://example.com" 2%nat = Raises e /\
     request (test_client 3 1 failing_session) "http://example.com" "GET"
       = Some (Raise (RetryError e), tr, 3%nat) /\
     count_calls tr = 3%nat) /\
  request (test_client 3 1 timing_out_session) "http://example.com" "GET"
    = Some (Raise TimeoutError,
            prelude (test_client 3 1 timing_out_session)
              ++ [Call "GET" "http://example.com" 0], 1%nat).
Proof.
  split.
  - apply (request_retry_exhaustion (test_client 3 1 failing_session) failing_session
             "http://example.com" "GET").
    + reflexivity.
    + intros i. exists (ClientError "Temporary error."). split; reflexivity.
  - apply (request_retry_exhaustion (test_client 3 1 timing_out_session) timing_out_session
             "http://example.com" "GET").
    + reflexivity.
    + reflexivity.
    + reflexivity.
Defined.

(** C3, as stated, fails in two ways. With [max_retries = 0] the first
    attempt is still made, so the session is called once, not zero times.
    And when the transport error is a timeout, which reaches [request] as
    [asyncio.TimeoutError], there is one attempt and no [RetryError], whatever
    [max_retries] is. *)
Lemma request_retry_exhaustion_counterexample :
  (max_retries (test_client 0 1 failing_session) = 0 /\
   request (test_client 0 1 failing_session) "http://example.com" "GET"
     = Some (Raise (RetryError (ClientError "Temporary error.")),
             [LogDebug "Making HTTP request"; Call "GET" "http://example.com" 0;
              LogException "Request failed" (ClientError "Temporary error.")],
             1%nat)) /\
  (max_retries (test_client 3 1 timing_out_session) = 3 /\
   (forall i, timing_out_session "GET" "http://example.com" i = Raises TimeoutError) /\
   request (test_client 3 1 timing_out_session) "http://example.com" "GET"
     = Some (Raise TimeoutError,
             [LogDebug "Making HTTP request"; Call "GET" "http://example.com" 0],
             1%nat)).
Proof. repeat apply conj; reflexivity. Qed.

(** C2. If every response has a status of 400 or more, each attempt raises
    [ClientResponseError] with that status, through the clause of its own in
    [_request]; [request] makes [max(1, max_retries)] attempts, no more, and
    raises a [RetryError] whose last attempt is the [ClientResponseError]
    carrying the status of the last response. *)
Theorem status_error_surfaces (c : client) (s : session) (url method : string) :
  client_session c = Some s ->
  (forall i, exists r, s method url i = Responds r /\ 400 <= status r) ->
  let N := Z.to_nat (Z.max 1 (max_retries c)) in
  (forall i r, s method url i = Responds r ->
     _request c url method i =
       (Raise (ClientResponseError (status r)),
        prelude c ++ [Call method url i;
                      LogException "HTTP error occurred" (ClientResponseError (status r))],
        S i)) /\
  exists r tr,
    s method url (N - 1)%nat = Responds r /\
    request c url method = Some (Raise (RetryError (ClientResponseError (status r))), tr, N) /\
    count_calls tr = N.
Proof.
  intros Hs Hst N. split.
  - intros i r Hr. destruct (Hst i) as (r' & Hr' & Hge).
    rewrite Hr in Hr'. injection Hr' as <-. by eapply _request_status_error.
  - destruct (request_all_fail c url method (raised s url method)) as (tr & Hrun & Hc).
    + intros i. destruct (Hst i) as (r & Hr & Hge).
      unfold raised. rewrite Hr. by eapply status_error_fails.
    + destruct (Hst (N - 1)%nat) as (r & Hr & Hge).
      exists r, tr. split; [done|]. split; [|done].
      rewrite Hrun. unfold raised. fold N. by rewrite Hr.
Qed.

Lemma status_error_surfaces_witness :
  exists r tr,
    status_session 400 "GET" "http://example.com" 2%nat = Responds r /\
    request (test_client 3 1 (status_session 400)) "http://example.com" "GET"
      = Some (Raise (RetryError (ClientResponseError (status r))), tr, 3%nat) /\
    count_calls tr = 3%nat.
Proof.
  apply (status_error_surfaces (test_client 3 1 (status_session 400)) (status_session 400)
           "http://example.com" "GET").
  - reflexivity.
  - intros i. eexists. split; [reflexivity|]. simpl. lia.
Defined.

(** C5 (as amended). In a run of [request], the wait slept before attempt
    [k] (the sleep that follows [k - 1] calls) is
    [max(0, min(backoff_start * 2^(k-2), MAX_WAIT))] as long as [k <= 1025],
    and [MAX_WAIT] from [k = 1026] on, where the power of two no longer fits
    a float; the retry is logged with that wait immediately before the
    sleep. *)
Theorem backoff_before_attempt
    (c : client) (url method : string) (out : outcome json)
    (tr pre post : list Api.event) (n : nat) (w : Q) :
  request c url method = Some (out, tr, n) ->
  tr = pre ++ Sleep w :: post ->
  let k := S (count_calls pre) in
  (2 <= k)%nat /\
  w = (if 1026 <=? Z.of_nat k then Tenacity.MAX_WAIT
       else Qmax 0 (Qmin (backoff_start c * inject_Z (2 ^ (Z.of_nat k - 2)))
                      Tenacity.MAX_WAIT)) /\
  exists pre' e, pre = pre' ++ [LogRetry (k - 1) w e].
Proof.
  intros Hrun Htr k.
  destruct (retrying_sleeps _ _ _ _ _ _ _ _ _ Hrun pre w post Htr) as (Hge & Hw & pre' & e & Hpre).
  replace (1 + count_calls pre - 1)%nat with (count_calls pre) in * by lia.
  split; [unfold k; lia|]. split.
  - rewrite Hw. unfold Tenacity.wait_exponential.
    replace (Z.of_nat (count_calls pre) - 1) with (Z.of_nat k - 2) by (unfold k; lia).
    destruct (1024 <=? Z.of_nat k - 2) eqn:E1; destruct (1026 <=? Z.of_nat k) eqn:E2;
      try reflexivity; lia.
  - exists pre', e. unfold k. by replace (S (count_calls pre) - 1)%nat with (count_calls pre) by lia.
Qed.

Lemma backoff_before_attempt_witness :
  (2 <= 2)%nat /\
  (1 # 100) = (if 1026 <=? Z.of_nat 2 then Tenacity.MAX_WAIT
               else Qmax 0 (Qmin ((1 # 100) * inject_Z (2 ^ (Z.of_nat 2 - 2)))
                              Tenacity.MAX_WAIT)) /\
  exists pre' e,
    [LogDebug "Making HTTP request"; Call "GET" "http://example.com" 0;
     LogException "Request failed" (ClientError "Temporary error.");
     LogRetry 1 (1 # 100) (ClientError "Temporary error.")]
    = pre' ++ [LogRetry (2 - 1) (1 # 100) e].
Proof.
  apply (backoff_before_attempt
           (test_client 2 (1 # 100) (flaky_session 1)) "http://example.com" "GET"
           (Return (JDict [("retry", JStr "succeeded")]))
           [LogDebug "Making HTTP request"; Call "GET" "http://example.com" 0;
            LogException "Request failed" (ClientError "Temporary error.");
            LogRetry 1 (1 # 100) (ClientError "Temporary error.");
            Sleep (1 # 100);
            LogDebug "Making HTTP request"; Call "GET" "http://example.com" 1]
           [LogDebug "Making HTTP request"; Call "GET" "http://example.com" 0;
            LogException "Request failed" (ClientError "Temporary error.");
            LogRetry 1 (1 # 100) (ClientError "Temporary error.")]
           [LogDebug "Making HTTP request"; Call "GET" "http://example.com" 1]
           2%nat (1 # 100)).
  - reflexivity.
  - reflexivity.
Defined.

(** C5, as stated, fails: with [backoff_start = 1] the wait slept before
    attempt 2 is 1 second, not [1 * 2^(2-1) = 2] seconds. *)
Lemma backoff_before_attempt_counterexample :
  exists pre post,
    request (test_client 3 1 failing_session) "http://example.com" "GET"
      = Some (Raise (RetryError (ClientError "Temporary error.")),
              pre ++ Sleep 1 :: post, 3%nat) /\
    S (count_calls pre) = 2%nat /\
    ~ (1 == backoff_start (test_client 3 1 failing_session) * inject_Z (2 ^ (2 - 1)))%Q.
Proof.
  exists [LogDebug "Making HTTP request"; Call "GET" "http://example.com" 0;
          LogException "Request failed" (ClientError "Temporary error.");
          LogRetry 1 1 (ClientError "Temporary error.")].
  eexists. split; [reflexivity|]. split; [reflexivity|].
  intros H. discriminate H.
Qed.

(** C9. [EODHDAPIClient.__init__] raises [ValueError] when the key is
    missing or empty; for a non-empty key it succeeds and stores the key
    unchanged. *)
Theorem EODHDAPIClient_requires_api_key
    (rate_limit : option Z) (timeout : Q) (max_retries : Z) (backoff_start : Q) :
  EODHDAPIClient_init None rate_limit timeout max_retries backoff_start = Raise ValueError /\
  EODHDAPIClient_init (Some "") rate_limit timeout max_retries backoff_start = Raise ValueError /\
  forall key : string, key <> "" ->
    exists c,
      EODHDAPIClient_init (Some key) rate_limit timeout max_retries backoff_start = Return c /\
      api_key c = key /\
      base c = AIOHTTPAPIClientAdapter_init rate_limit timeout max_retries backoff_start.
Proof.
  split; [reflexivity|]. split; [reflexivity|].
  intros key Hkey. unfold EODHDAPIClient_init.
  destruct (String.eqb key "") eqn:E.
  - apply String.eqb_eq in E. contradiction.
  - eexists. split; [reflexivity|]. split; reflexivity.
Qed.

Lemma EODHDAPIClient_requires_api_key_witness :
  exists c,
    EODHDAPIClient_init (Some "demo") (Some 1000) 10 3 1 = Return c /\
    api_key c = "demo" /\
    base c = AIOHTTPAPIClientAdapter_init (Some 1000) 10 3 1.
Proof.
  apply (proj2 (proj2 (EODHDAPIClient_requires_api_key (Some 1000) 10 3 1)) "demo").
  discriminate.
Defined.

(* ===================================================================== *)
(** ** The event bus: properties                                          *)
(* ===================================================================== *)

(** Unfolds the coroutines down to matches on what the environment answers. *)
Ltac unfold_model :=
  cbv [deliver on_message on_message_try on_message_body on_message_except
       process try_except bind ret raise after
       emit log log_exception get modify loads data_get call_handler
       is_processed mark_as_processed store_close initialize from_url
       redis_exists redis_set redis_command redis_call except_RedisError
       ack reject connect publish subscribe broker_call except_AMQPError
       absent_or_closed is_closed negb
       set_clock set_redis_calls set_redis_db set_handled set_redis set_connection
       set_channel set_exchange set_subscriptions set_processed
       clock redis_fault redis_calls redis_db broker_fault handled redis_url redis
       rabbitmq_url exchange_name connection channel exchange subscriptions
       processed app].

(** Goes on after a rewrite has unblocked a match. *)
Ltac step := cbv beta iota zeta delta [negb].

(** Case analysis on a scrutinee that is not itself a match. *)
Ltac case_inner :=
  match goal with
  | |- context [match ?x with _ => _ end] =>
      lazymatch x with
      | context [match _ with _ => _ end] => fail
      | _ => destruct x eqn:?
      end
  end; cbv beta iota zeta.

(** Membership in an explicit list, by cases. *)
Ltac elem_of_cases H :=
  repeat (apply elem_of_cons in H as [H|H]; [try discriminate H|]);
  try (by apply elem_of_nil in H).

Lemma truthy_JStr (eid : string) : eid <> "" -> truthy (JStr eid) = true.
Proof.
  intros H. simpl. destruct (String.eqb eid "") eqn:E; [|done].
  apply String.eqb_eq in E. contradiction.
Qed.

(** A body that is text but not JSON: logged, rejected without requeue, and
    the handler is not reached. *)
Lemma invalid_json_rejected (h : handler) (text : string) (s : state) :
  deliver h (NotJson text) s =
    (Raise (MessageProcessError (Some JSONDecodeError)), set_processed true s,
     [Loads; Log LException "Invalid JSON in message." (Some JSONDecodeError);
      BasicReject false]).
Proof. destruct s. reflexivity. Qed.

(** C7, at the failing input. A body that is not UTF-8 makes [decode()]
    raise [UnicodeDecodeError], which the generic clause of [on_message]
    catches: the message is rejected with requeue. *)
Theorem undecodable_body_is_requeued (h : handler) (s : state) :
  deliver h NotUtf8 s =
    (Raise (MessageProcessError None), set_processed true s,
     [Loads; Log LException "Error processing message." (Some UnicodeDecodeError);
      BasicReject true]).
Proof. destruct s. reflexivity. Qed.

(** C6. The steps of a delivery occur in the order parse, dedupe-check,
    handler, mark, acknowledge; the event is marked only after the handler
    has returned for this payload, and the acknowledgement, when there is
    one, comes last. *)
Theorem processing_steps_sequential (h : handler) (b : body) (s : state) :
  let '(out, s', tr) := deliver h b s in
  (steps tr = [Parse] \/
   steps tr = [Parse; DedupeCheck] \/
   steps tr = [Parse; DedupeCheck; Acknowledge] \/
   steps tr = [Parse; DedupeCheck; Handle] \/
   steps tr = [Parse; DedupeCheck; Handle; MarkProcessed] \/
   steps tr = [Parse; DedupeCheck; Handle; MarkProcessed; Acknowledge]) /\
  (MarkProcessed ∈ steps tr ->
     exists data, b = Json data /\ h (handled s) data = Return tt) /\
  (out = Return tt ->
     steps tr = [Parse; DedupeCheck; Acknowledge] \/
     steps tr = [Parse; DedupeCheck; Handle; MarkProcessed; Acknowledge]).
Proof.
  destruct s. unfold_model. repeat case_inner.
  all: cbn [steps omap step_of list_omap].
  all: split; [tauto|]; split.
  all: try (intros Hin;
            repeat (apply elem_of_cons in Hin as [Hin|Hin]; [discriminate|]);
            by apply elem_of_nil in Hin).
  all: try (intros _; eexists; split; [reflexivity|];
            match goal with u : unit |- _ => destruct u end; assumption).
  all: try discriminate.
  all: tauto.
Qed.

Lemma processing_steps_sequential_witness :
  exists data,
    Json notification = Json data /\ ok_handler (handled state0) data = Return tt.
Proof.
  pose proof (processing_steps_sequential ok_handler (Json notification) state0) as H.
  destruct (deliver ok_handler (Json notification) state0) as [[out s'] tr] eqn:Hrun.
  vm_compute in Hrun. injection Hrun as <- <- <-.
  apply (proj1 (proj2 H)).
  cbn. repeat constructor.
Defined.

(** A delivery of an event whose marker is live: [is_processed] answers
    true, the message is acknowledged and the handler is not invoked. *)
Lemma duplicate_delivery_skipped
    (h : handler) (items : list (string * json)) (eid : string) (s : state) :
  lookup_item "event_id" items = JStr eid ->
  eid <> "" ->
  redis s = true ->
  (forall n, redis_fault s n = None) ->
  live s eid = true ->
  exists s',
    deliver h (Json (JDict items)) s =
      (Return tt, s',
       [Loads; IsProcessed (JStr eid); RedisExists eid 1;
        Log LDebug "Checked if event is processed" None;
        Log LInfo "Duplicate event received. Skipping processing." None;
        BasicAck]) /\
    handled s' = handled s.
Proof.
  intros Hid Hne Hconn Hfault Hlive. destruct s. simpl in *. subst.
  unfold live in Hlive. simpl in Hlive.
  unfold_model. rewrite Hid, truthy_JStr by done. step.
  rewrite !Hfault. cbn [redis_key]. step.
  destruct (_ !! eid) as [expires|]; [|done]. rewrite Hlive.
  cbn [Z.eqb Pos.eqb]. step.
  eexists. split; reflexivity.
Qed.

(** A first delivery that goes well: the handler is invoked once and the
    marker is set, to expire 2592000 seconds later. *)
Lemma novel_delivery_marks
    (h : handler) (items : list (string * json)) (eid : string) (s : state) :
  lookup_item "event_id" items = JStr eid ->
  eid <> "" ->
  (forall n, redis_fault s n = None) ->
  live s eid = false ->
  h (handled s) (JDict items) = Return tt ->
  exists s' tr,
    deliver h (Json (JDict items)) s = (Return tt, s', tr) /\
    steps tr = [Parse; DedupeCheck; Handle; MarkProcessed; Acknowledge] /\
    handled s' = handled s ++ [JDict items] /\
    redis s' = true /\
    redis_fault s' = redis_fault s /\
    clock s' = clock s /\
    redis_db s' = <[eid := clock s + 2592000]> (redis_db s).
Proof.
  intros Hid Hne Hfault Hlive Hh. destruct s. simpl in *.
  unfold live in Hlive. simpl in Hlive.
  unfold_model. rewrite Hid, truthy_JStr by done. step.
  assert (Hfound : match redis_db0 !! eid with
                   | Some expires => if clock0 <? expires then 1 else 0
                   | None => 0
                   end = 0).
  { destruct (_ !! eid); [by rewrite Hlive | done]. }
  destruct redis0; step; rewrite !Hfault; cbn [redis_key]; step;
    rewrite Hfound; cbn [Z.eqb]; step; rewrite Hh; step;
    rewrite ?Hfault; step;
    eexists _, _; (split; [reflexivity|]); repeat split; reflexivity.
Qed.

(** C1 (as amended). If the first of two deliveries with the same
    [event_id] is processed successfully (the event is not marked yet, the
    handler returns, Redis answers) and the second arrives before the marker
    expires, the handler is invoked exactly once: on the second delivery
    [is_processed] answers true, the message is acknowledged and the handler
    is not invoked. *)
Theorem idempotent_delivery
    (h : handler) (items1 items2 : list (string * json)) (eid : string)
    (s0 : state) (t2 : Z) :
  lookup_item "event_id" items1 = JStr eid ->
  lookup_item "event_id" items2 = JStr eid ->
  eid <> "" ->
  (forall n, redis_fault s0 n = None) ->
  live s0 eid = false ->
  h (handled s0) (JDict items1) = Return tt ->
  clock s0 <= t2 < clock s0 + 2592000 ->
  exists s1 tr1 s2,
    deliver h (Json (JDict items1)) s0 = (Return tt, s1, tr1) /\
    steps tr1 = [Parse; DedupeCheck; Handle; MarkProcessed; Acknowledge] /\
    deliver h (Json (JDict items2)) (set_clock t2 s1) =
      (Return tt, s2,
       [Loads; IsProcessed (JStr eid); RedisExists eid 1;
        Log LDebug "Checked if event is processed" None;
        Log LInfo "Duplicate event received. Skipping processing." None;
        BasicAck]) /\
    handled s2 = handled s0 ++ [JDict items1].
Proof.
  intros Hid1 Hid2 Hne Hfault Hlive Hh Ht2.
  destruct (novel_delivery_marks h items1 eid s0) as
    (s1 & tr1 & Hrun1 & Hsteps & Hhandled & Hconn & Hfault1 & Hclock & Hdb); try done.
  assert (Hconn2 : redis (set_clock t2 s1) = true) by (by destruct s1).
  assert (Hfault2 : forall n, redis_fault (set_clock t2 s1) n = None).
  { intros n. destruct s1; simpl in *. by rewrite Hfault1. }
  assert (Hlive2 : live (set_clock t2 s1) eid = true).
  { unfold live. destruct s1; simpl in *. rewrite Hdb, lookup_insert_eq.
    apply Z.ltb_lt. lia. }
  destruct (duplicate_delivery_skipped h items2 eid (set_clock t2 s1)
              Hid2 Hne Hconn2 Hfault2 Hlive2) as (s2 & Hrun2 & Hhandled2).
  exists s1, tr1, s2. split; [done|]. split; [done|]. split; [done|].
  rewrite Hhandled2. by destruct s1.
Qed.

Lemma idempotent_delivery_witness :
  exists s1 tr1 s2,
    deliver ok_handler (Json notification) state0 = (Return tt, s1, tr1) /\
    steps tr1 = [Parse; DedupeCheck; Handle; MarkProcessed; Acknowledge] /\
    deliver ok_handler (Json notification) (set_clock 60 s1) =
      (Return tt, s2,
       [Loads; IsProcessed (JStr "e1"); RedisExists "e1" 1;
        Log LDebug "Checked if event is processed" None;
        Log LInfo "Duplicate event received. Skipping processing." None;
        BasicAck]) /\
    handled s2 = handled state0 ++ [notification].
Proof.
  apply (idempotent_delivery ok_handler _ _ "e1" state0 60).
  - reflexivity.
  - reflexivity.
  - discriminate.
  - reflexivity.
  - reflexivity.
  - reflexivity.
  - simpl. lia.
Defined.

(** C1, as stated, fails when the handler raises on the first delivery: the
    message is rejected with requeue, nothing is marked, and on the second
    delivery [is_processed] answers false and the handler is invoked again. *)
Lemma idempotent_delivery_counterexample :
  let '(_, s1, tr1) := deliver failing_handler (Json notification) state0 in
  let '(_, s2, tr2) := deliver failing_handler (Json notification) s1 in
  handled s2 = [notification; notification] /\
  tr2 = [Loads; IsProcessed (JStr "e1"); RedisExists "e1" 0;
         Log LDebug "Checked if event is processed" None;
         Handler notification;
         Log LException "Error processing message." (Some (Exception_ "boom"));
         BasicReject true].
Proof. vm_compute. split; reflexivity. Qed.

(** C10. [subscribe] appends [(event_name, handler)] to the subscriptions
    once [queue.consume] has succeeded, and only then. With a broker that
    accepts what it is asked, [subscribe] returns with the pair appended, and
    so it does whenever [queue.consume] is reached and succeeds. Whenever
    [subscribe] raises, the list is as it was, and an error raised by
    [queue.consume] is the error [subscribe] raises (logged first when it is
    an [AMQPError]). *)
Theorem subscribe_records_after_consume (event_name : string) (h : handler) (s : state) :
  let '(out, s', tr) := subscribe event_name h s in
  ((forall op, broker_fault s op = None) ->
     out = Return tt /\
     subscriptions s' = subscriptions s ++ [(event_name, h)] /\
     last tr = Some (Broker QueueConsume (event_name +:+ "_queue"))) /\
  (Broker QueueConsume (event_name +:+ "_queue") ∈ tr ->
   broker_fault s QueueConsume = None ->
     out = Return tt /\
     subscriptions s' = subscriptions s ++ [(event_name, h)]) /\
  (out = Return tt ->
     subscriptions s' = subscriptions s ++ [(event_name, h)] /\
     broker_fault s QueueConsume = None /\
     last tr = Some (Broker QueueConsume (event_name +:+ "_queue"))) /\
  (forall e, out = Raise e -> subscriptions s' = subscriptions s) /\
  (forall e,
     broker_fault s QueueConsume = Some e ->
     (forall op, op <> QueueConsume -> broker_fault s op = None) ->
     out = Raise e /\
     subscriptions s' = subscriptions s /\
     (isinstance_AMQPError e = true ->
        last tr = Some (Log LException "Failed to subscribe to event." (Some e)))).
Proof.
  destruct s as [clk rf rc db bf hd ru rd mu en conn chan exch subs proc].
  unfold_model. repeat case_inner.
  all: cbn [last].
  all: split;
    [intros Hall;
     try match goal with
         | H : _ ?op = Some _ |- _ => rewrite Hall in H; discriminate H
         end;
     by repeat split|].
  all: split;
    [intros Hin Hok;
     first [ by repeat split | congruence | exfalso; elem_of_cases Hin ]|].
  all: split; [intros Hout; try discriminate Hout; by repeat split|].
  all: split; [intros e' Hout; try discriminate Hout; reflexivity|].
  all: intros e' Hconsume Hothers.
  all: try match goal with
           | H : _ ?op = Some _ |- _ =>
               rewrite Hothers in H by discriminate; discriminate H
           end.
  all: try congruence.
  all: replace e' with e in * by congruence.
  all: split; [reflexivity|]; split; [reflexivity|].
  all: intros Hamqp; try reflexivity; congruence.
Qed.

Lemma subscribe_records_after_consume_witness :
  (let '(out, s', tr) := subscribe "Notification" ok_handler state0 in
   out = Return tt /\
   subscriptions s' = subscriptions state0 ++ [("Notification", ok_handler)] /\
   last tr = Some (Broker QueueConsume ("Notification" +:+ "_queue"))) /\
  (let '(out, s', tr) := subscribe "Notification" ok_handler (consume_refused state0) in
   out = Raise (AMQPError "consume refused") /\
   subscriptions s' = subscriptions (consume_refused state0) /\
   (isinstance_AMQPError (AMQPError "consume refused") = true ->
      last tr = Some (Log LException "Failed to subscribe to event."
                        (Some (AMQPError "consume refused"))))).
Proof.
  split.
  - pose proof (subscribe_records_after_consume "Notification" ok_handler state0) as H.
    destruct (subscribe "Notification" ok_handler state0) as [[out s'] tr].
    apply (proj1 H). intros op. reflexivity.
  - pose proof (subscribe_records_after_consume "Notification" ok_handler
                  (consume_refused state0)) as H.
    destruct (subscribe "Notification" ok_handler (consume_refused state0)) as [[out s'] tr].
    apply (proj2 (proj2 (proj2 (proj2 H))) (AMQPError "consume refused")).
    + reflexivity.
    + intros op Hop. destruct op; try reflexivity. contradiction.
Defined.

(** A handler that raises: the generic clause of [on_message] logs the
    exception and rejects the message with requeue, and does not raise it
    again. What comes out of [on_message] is the [MessageProcessError] of the
    acknowledgement that [process()] attempts on a message already rejected;
    it has no [__context__]. *)
Lemma handler_error_absorbed
    (h : handler) (items : list (string * json)) (eid : string) (s : state) (e : exn) :
  lookup_item "event_id" items = JStr eid ->
  eid <> "" ->
  redis s = true ->
  (forall n, redis_fault s n = None) ->
  live s eid = false ->
  h (handled s) (JDict items) = Raise e ->
  isinstance_JSONDecodeError e = false ->
  exists s',
    deliver h (Json (JDict items)) s =
      (Raise (MessageProcessError None), s',
       [Loads; IsProcessed (JStr eid); RedisExists eid 0;
        Log LDebug "Checked if event is processed" None;
        Handler (JDict items);
        Log LException "Error processing message." (Some e);
        BasicReject true]) /\
    redis_db s' = redis_db s.
Proof.
  intros Hid Hne Hconn Hfault Hlive Hh He.
  destruct s as [clk rf rc db bf hd ru rd mu en conn chan exch subs proc].
  simpl in *. subst. unfold live in Hlive. simpl in Hlive.
  unfold_model. rewrite Hid, truthy_JStr by done. step.
  rewrite !Hfault. cbn [redis_key]. step.
  assert (Hfound : match db !! eid with
                   | Some expires => if clk <? expires then 1 else 0
                   | None => 0
                   end = 0).
  { destruct (_ !! eid); [by rewrite Hlive | done]. }
  rewrite Hfound. cbn [Z.eqb]. step. rewrite Hh. step. rewrite He. step.
  eexists. split; reflexivity.
Qed.















(* ===================================================================== *)
(** ** More properties of the retrying HTTP client                        *)
(* ===================================================================== *)

Import Trace.

Lemma count_sleeps_app tr1 tr2 :
  count_sleeps (tr1 ++ tr2) = (count_sleeps tr1 + count_sleeps tr2)%nat.
Proof. induction tr1 as [|ev tr1 IH]; simpl; [done|]. destruct ev; simpl; lia. Qed.

Lemma count_acquires_app tr1 tr2 :
  count_acquires (tr1 ++ tr2) = (count_acquires tr1 + count_acquires tr2)%nat.
Proof. induction tr1 as [|ev tr1 IH]; simpl; [done|]. destruct ev; simpl; lia. Qed.

Lemma calls_of_app tr1 tr2 : calls_of (tr1 ++ tr2) = calls_of tr1 ++ calls_of tr2.
Proof. induction tr1 as [|ev tr1 IH]; simpl; [done|]. destruct ev; simpl; by rewrite ?IH. Qed.

(** What one attempt records, whatever the session answers. *)
Lemma _request_shape c url method n out tr n' :
  _request c url method n = (out, tr, n') ->
  count_sleeps tr = 0%nat /\
  match client_session c with
  | None => n' = n /\ calls_of tr = [] /\ count_acquires tr = count_acquires (prelude c) /\
            out = Raise AttributeError
  | Some _ => n' = S n /\ calls_of tr = [(method, url, n)] /\
              count_acquires tr = count_acquires (prelude c)
  end.
Proof.
  unfold _request, _request_except, prelude. intros H.
  destruct (client_session c) as [s|]; repeat case_match; simplify_eq;
    rewrite ?count_sleeps_app, ?calls_of_app, ?count_acquires_app;
    destruct (rate_limiter c); simpl; auto.
Qed.

Lemma count_calls_calls_of tr : count_calls tr = length (calls_of tr).
Proof. induction tr as [|ev tr IH]; simpl; [done|]. destruct ev; simpl; lia. Qed.

(** What a run of the retry loop records, from attempt [a] and call [n] on. *)
Lemma retrying_shape c url method f :
  forall a n out tr n',
    retrying f c url method a n = Some (out, tr, n') ->
    n' = (n + count_calls tr)%nat /\
    calls_of tr = map (fun i => (method, url, i)) (seq n (count_calls tr)) /\
    count_sleeps tr = (count_calls tr - 1)%nat /\
    count_acquires tr =
      match rate_limiter c with
      | Some _ => S (count_sleeps tr)
      | None => 0%nat
      end /\
    Z.of_nat (a + count_calls tr) <= Z.max (Z.of_nat a + 1) (max_retries c + 1) /\
    (client_session c <> None -> (1 <= count_calls tr)%nat).
Proof.
  induction f as [|f IH]; intros a n out tr n' Hrun; [done|].
  simpl in Hrun.
  destruct (_request c url method n) as [[o tr0] n0] eqn:Hreq.
  destruct (_request_shape _ _ _ _ _ _ _ Hreq) as (Hsl0 & Hshape).
  assert (Hone : count_calls tr0 = length (calls_of tr0)) by apply count_calls_calls_of.
  assert (Hacq0 : count_acquires tr0 =
                  match rate_limiter c with Some _ => 1%nat | None => 0%nat end).
  { destruct (client_session c).
    - destruct Hshape as (_ & _ & Hacq). rewrite Hacq. unfold prelude.
      destruct (rate_limiter c); reflexivity.
    - destruct Hshape as (_ & _ & Hacq & _). rewrite Hacq. unfold prelude.
      destruct (rate_limiter c); reflexivity. }
  assert (Hbase : n0 = (n + count_calls tr0)%nat /\
                  calls_of tr0 = map (fun i => (method, url, i)) (seq n (count_calls tr0)) /\
                  (count_calls tr0 <= 1)%nat /\
                  (client_session c <> None -> (1 <= count_calls tr0)%nat) /\
                  (client_session c = None -> o = Raise AttributeError)).
  { destruct (client_session c).
    - destruct Hshape as (-> & Hcalls & _). rewrite Hone, Hcalls. simpl.
      repeat split; try done; lia.
    - destruct Hshape as (-> & Hcalls & _ & ->). rewrite Hone, Hcalls. simpl.
      repeat split; try done; lia. }
  destruct Hbase as (Hn0 & Hcalls0 & Hle & Hge & Hnone).
  assert (Hstop_here :
            n0 = (n + count_calls tr0)%nat /\
            calls_of tr0 = map (fun i => (method, url, i)) (seq n (count_calls tr0)) /\
            count_sleeps tr0 = (count_calls tr0 - 1)%nat /\
            count_acquires tr0 =
              match rate_limiter c with
              | Some _ => S (count_sleeps tr0)
              | None => 0%nat
              end /\
            Z.of_nat (a + count_calls tr0) <= Z.max (Z.of_nat a + 1) (max_retries c + 1) /\
            (client_session c <> None -> (1 <= count_calls tr0)%nat)).
  { rewrite Hsl0, Hacq0. repeat split; try done; lia. }
  destruct o as [v|e]; [by simplify_eq|].
  unfold Tenacity.retry_if_exception in Hrun.
  destruct (isinstance_ClientError e) eqn:Hretry; simpl in Hrun; [|by simplify_eq].
  unfold Tenacity.stop_after_attempt in Hrun.
  destruct (max_retries c <=? Z.of_nat a) eqn:Hstop; [by simplify_eq|].
  apply Z.leb_gt in Hstop.
  destruct (retrying f c url method (S a) n0) as [[[out' tr'] n'']|] eqn:Hrec; [|done].
  injection Hrun as <- <- <-.
  destruct (IH _ _ _ _ _ Hrec) as (Hn & Hcalls & Hsl & Hacq & Hbound & Hge').
  pose proof (_request_retryable_one_call _ _ _ _ _ _ _ Hreq Hretry) as H1.
  assert (Hsession : client_session c <> None).
  { intros Heq. specialize (Hnone Heq). simplify_eq. }
  specialize (Hge' Hsession).
  rewrite !count_calls_app, !calls_of_app, !count_sleeps_app, !count_acquires_app.
  cbn [count_calls calls_of count_sleeps count_acquires].
  rewrite Hcalls0, Hcalls, Hsl0, Hacq0, Hacq, Hsl, H1, Hn, Hn0, H1. simpl.
  repeat split.
  - lia.
  - f_equal. replace (n + 1)%nat with (S n) by lia. done.
  - lia.
  - destruct (rate_limiter c); lia.
  - lia.
  - lia.
Qed.

(** X1. Whatever the session answers, [request] comes to an end, the count it
    returns is the number of calls it made, and it never makes more than
    [max(1, max_retries)] of them. *)
Theorem request_attempts_bounded (c : client) (url method : string) :
  exists out tr n,
    request c url method = Some (out, tr, n) /\
    n = count_calls tr /\
    Z.of_nat (count_calls tr) <= Z.max 1 (max_retries c).
Proof.
  destruct (request_total c url method) as [[[out tr] n] Hrun].
  exists out, tr, n. split; [done|].
  destruct (retrying_shape _ _ _ _ _ _ _ _ _ Hrun) as (Hn & _ & _ & _ & Hbound & _).
  split; lia.
Qed.

Lemma beats_app tr1 tr2 : beats (tr1 ++ tr2) = beats tr1 ++ beats tr2.
Proof. induction tr1 as [|ev tr1 IH]; simpl; [done|]. destruct ev; simpl; by rewrite ?IH. Qed.

(** One attempt calls the session at most once and does not sleep. *)
Lemma _request_beats c url method n out tr n' :
  _request c url method n = (out, tr, n') -> beats tr = alternating (count_calls tr).
Proof.
  unfold _request, _request_except. intros H.
  destruct (client_session c) as [s|]; repeat case_match; simplify_eq;
    rewrite ?beats_app, ?count_calls_app;
    destruct (rate_limiter c); reflexivity.
Qed.

(** The calls and the sleeps of the retry loop alternate. *)
Lemma retrying_beats c url method f :
  forall a n out tr n',
    retrying f c url method a n = Some (out, tr, n') ->
    beats tr = alternating (count_calls tr).
Proof.
  induction f as [|f IH]; intros a n out tr n' Hrun; [done|].
  simpl in Hrun.
  destruct (_request c url method n) as [[o tr0] n0] eqn:Hreq.
  pose proof (_request_beats _ _ _ _ _ _ _ Hreq) as Hb0.
  destruct o as [v|e]; [by simplify_eq|].
  unfold Tenacity.retry_if_exception in Hrun.
  destruct (isinstance_ClientError e) eqn:Hretry; simpl in Hrun; [|by simplify_eq].
  destruct (Tenacity.stop_after_attempt _ _); [by simplify_eq|].
  destruct (retrying f c url method (S a) n0) as [[[out' tr'] n'']|] eqn:Hrec; [|done].
  injection Hrun as <- <- <-.
  pose proof (_request_retryable_one_call _ _ _ _ _ _ _ Hreq Hretry) as Hone.
  assert (Hsession : client_session c <> None).
  { intros Heq. destruct (_request_shape _ _ _ _ _ _ _ Hreq) as [_ Hshape].
    rewrite Heq in Hshape. destruct Hshape as (_ & _ & _ & Hout). by simplify_eq. }
  destruct (retrying_shape _ _ _ _ _ _ _ _ _ Hrec) as (_ & _ & _ & _ & _ & Hge).
  specialize (Hge Hsession).
  rewrite !beats_app, !count_calls_app.
  cbn [beats count_calls app].
  rewrite Hb0, Hone, (IH _ _ _ _ _ Hrec).
  destruct (count_calls tr') as [|m]; [lia|reflexivity].
Qed.

(** X2. The calls of one [request] all carry the method and the URL it was
    given, and they are the calls number 0, 1, ... of the session, in order;
    calls and backoff sleeps alternate, starting and ending with a call:
    exactly one sleep separates two consecutive calls and none follows the
    last one. *)
Theorem request_repeats_same_call
    (c : client) (url method : string) (out : outcome json)
    (tr : list Api.event) (n : nat) :
  request c url method = Some (out, tr, n) ->
  calls_of tr = map (fun i => (method, url, i)) (seq 0 n) /\
  beats tr = alternating n /\
  count_sleeps tr = (n - 1)%nat.
Proof.
  intros Hrun.
  pose proof (retrying_beats _ _ _ _ _ _ _ _ _ Hrun) as Hbeats.
  destruct (retrying_shape _ _ _ _ _ _ _ _ _ Hrun) as (Hn & Hcalls & Hsl & _ & _ & _).
  simpl in Hn. subst n. done.
Qed.

Lemma request_repeats_same_call_witness :
  calls_of
    [LogDebug "Making HTTP request"; Call "GET" "http://example.com" 0;
     LogException "Request failed" (ClientError "Temporary error.");
     LogRetry 1 (1 # 100) (ClientError "Temporary error."); Sleep (1 # 100);
     LogDebug "Making HTTP request"; Call "GET" "http://example.com" 1]
  = map (fun i => ("GET", "http://example.com", i)) (seq 0 2) /\
  beats
    [LogDebug "Making HTTP request"; Call "GET" "http://example.com" 0;
     LogException "Request failed" (ClientError "Temporary error.");
     LogRetry 1 (1 # 100) (ClientError "Temporary error."); Sleep (1 # 100);
     LogDebug "Making HTTP request"; Call "GET" "http://example.com" 1]
  = alternating 2 /\
  count_sleeps
    [LogDebug "Making HTTP request"; Call "GET" "http://example.com" 0;
     LogException "Request failed" (ClientError "Temporary error.");
     LogRetry 1 (1 # 100) (ClientError "Temporary error."); Sleep (1 # 100);
     LogDebug "Making HTTP request"; Call "GET" "http://example.com" 1]
  = (2 - 1)%nat.
Proof.
  apply (request_repeats_same_call
           (test_client 2 (1 # 100) (flaky_session 1)) "http://example.com" "GET"
           (Return (JDict [("retry", JStr "succeeded")]))).
  reflexivity.
Defined.

(** X3. With a rate limiter, a token is acquired before every call, one per
    attempt; without one (no [rate_limit], or [rate_limit = 0]) the limiter is
    never waited on. *)
Theorem acquire_before_every_call
    (c : client) (s : session) (url method : string) (out : outcome json)
    (tr : list Api.event) (n : nat) :
  client_session c = Some s ->
  request c url method = Some (out, tr, n) ->
  count_acquires tr =
    match rate_limiter c with
    | Some _ => count_calls tr
    | None => 0%nat
    end.
Proof.
  intros Hs Hrun.
  destruct (retrying_shape _ _ _ _ _ _ _ _ _ Hrun) as (_ & _ & Hsl & Hacq & _ & Hge).
  rewrite Hacq. destruct (rate_limiter c); [|done]. rewrite Hsl.
  assert (1 <= count_calls tr)%nat; [|lia].
  apply Hge. by rewrite Hs.
Qed.

Lemma acquire_before_every_call_witness :
  count_acquires
    [Acquire; LogDebug "Making HTTP request"; Call "GET" "http://example.com" 0;
     LogException "Request failed" (ClientError "Temporary error.");
     LogRetry 1 1 (ClientError "Temporary error."); Sleep 1;
     Acquire; LogDebug "Making HTTP request"; Call "GET" "http://example.com" 1]
  = 2%nat.
Proof.
  apply (acquire_before_every_call
           (aenter (AIOHTTPAPIClientAdapter_init (Some 1000) 10 3 1) (flaky_session 1))
           (flaky_session 1) "http://example.com" "GET"
           (Return (JDict [("retry", JStr "succeeded")]))
           [Acquire; LogDebug "Making HTTP request"; Call "GET" "http://example.com" 0;
            LogException "Request failed" (ClientError "Temporary error.");
            LogRetry 1 1 (ClientError "Temporary error."); Sleep 1;
            Acquire; LogDebug "Making HTTP request"; Call "GET" "http://example.com" 1]
           2%nat).
  - reflexivity.
  - reflexivity.
Defined.

(** X4. An error that is not an [aiohttp.ClientError] (a timeout of the
    event loop, say) is not retried and not wrapped: [request] raises it as
    it is, right after the call that met it. *)
Theorem non_retryable_error_propagates
    (c : client) (s : session) (url method : string) (k : nat) (e : exn) :
  client_session c = Some s ->
  k = 0%nat \/ Z.of_nat k < max_retries c ->
  (forall i, (i < k)%nat -> exists msg, s method url i = Raises (ClientError msg)) ->
  s method url k = Raises e ->
  isinstance_ClientError e = false ->
  exists tr, request c url method = Some (Raise e, tr, S k) /\ count_calls tr = S k.
Proof.
  intros Hs Hk Hfail He Hnot. unfold request.
  pose proof (_request_raises c s url method k e Hs He) as Hreq.
  destruct (retrying_skip c url method k (S (Z.to_nat (max_retries c) - k)) 1 0
              (Raise e) (prelude c ++ [Call method url k] ++ _request_except e) (S k))
    as (tr & Hrun & Hc).
  - intros i Hi. split; [lia|]. simpl. destruct (Hfail i Hi) as [msg Hmsg].
    exists (ClientError msg). by eapply transport_error_fails.
  - simpl (0 + _)%nat. simpl. rewrite Hreq.
    unfold Tenacity.retry_if_exception. by rewrite Hnot.
  - exists tr. split.
    + rewrite <- Hrun. f_equal. lia.
    + rewrite Hc, !count_calls_app, count_calls_prelude, count_calls__request_except.
      simpl. lia.
Qed.

Lemma non_retryable_error_propagates_witness :
  exists tr,
    request (test_client 3 1 (fun _ _ _ => Raises (Exception_ "timeout")))
      "http://example.com" "GET"
    = Some (Raise (Exception_ "timeout"), tr, 1%nat) /\ count_calls tr = 1%nat.
Proof.
  apply (non_retryable_error_propagates
           (test_client 3 1 (fun _ _ _ => Raises (Exception_ "timeout")))
           (fun _ _ _ => Raises (Exception_ "timeout")) "http://example.com" "GET" 0).
  - reflexivity.
  - left. reflexivity.
  - intros i Hi. lia.
  - reflexivity.
  - reflexivity.
Defined.

(** X5. A client that was never entered has no session: [request] raises
    [AttributeError] without calling anything and without retrying. *)
Theorem request_without_session (c : client) (url method : string) :
  client_session c = None ->
  request c url method = Some (Raise AttributeError, prelude c, 0%nat).
Proof.
  intros Hs. unfold request. simpl. unfold _request. rewrite Hs. reflexivity.
Qed.

Lemma request_without_session_witness :
  request (AIOHTTPAPIClientAdapter_init None 10 3 1) "http://example.com" "GET"
  = Some (Raise AttributeError, [LogDebug "Making HTTP request"], 0%nat).
Proof.
  apply (request_without_session (AIOHTTPAPIClientAdapter_init None 10 3 1)).
  reflexivity.
Defined.

(** X6. A first response with a status below 400 (a 3xx status too) and a
    JSON body is returned at once, with one call and no sleep, whatever
    [max_retries] is, zero or negative included. *)
Theorem first_response_returned
    (c : client) (s : session) (url method : string) (r : response) (v : json) :
  client_session c = Some s ->
  s method url 0%nat = Responds r ->
  status r < 400 ->
  json_body r = inr v ->
  request c url method = Some (Return v, prelude c ++ [Call method url 0], 1%nat).
Proof.
  intros Hs Hr Hst Hv. unfold request.
  apply retrying_returns. by eapply _request_returns.
Qed.

Lemma first_response_returned_witness :
  request (test_client 0 1 (status_session 304)) "http://example.com" "GET"
  = Some (Return (JDict []),
          prelude (test_client 0 1 (status_session 304))
            ++ [Call "GET" "http://example.com" 0], 1%nat).
Proof.
  apply (first_response_returned (test_client 0 1 (status_session 304)) (status_session 304)
           "http://example.com" "GET" {| status := 304; json_body := inr (JDict []) |}).
  - reflexivity.
  - reflexivity.
  - reflexivity.
  - reflexivity.
Defined.

(* ===================================================================== *)
(** ** The token bucket                                                   *)
(* ===================================================================== *)

Lemma run_app steps1 steps2 b :
  Limiter.run (steps1 ++ steps2) b = Limiter.run steps2 (Limiter.run steps1 b).
Proof. unfold Limiter.run. apply foldl_app. Qed.

Lemma do_step_limiter b st : Limiter.limiter (Limiter.do_step b st) = Limiter.limiter b.
Proof.
  destruct st; simpl; unfold Limiter.fill, Limiter.acquire, Limiter.stop;
    repeat case_match; reflexivity.
Qed.

Lemma run_limiter steps b : Limiter.limiter (Limiter.run steps b) = Limiter.limiter b.
Proof.
  revert b. induction steps as [|st steps IH]; intros b; [done|].
  unfold Limiter.run in *. simpl. by rewrite IH, do_step_limiter.
Qed.

Lemma do_step_ok b st : Limiter.bucket_ok b -> Limiter.bucket_ok (Limiter.do_step b st).
Proof.
  unfold Limiter.bucket_ok. intros [Hcap Hwait].
  destruct st; simpl; unfold Limiter.fill, Limiter.acquire, Limiter.stop, Limiter.full.
  - destruct (negb _); [done|].
    destruct (0 <? _) eqn:E1; destruct (_ <=? _) eqn:E2; simpl; try done;
      destruct (Limiter.waiting b) eqn:Ew; simpl; split; try lia; auto;
      destruct Hwait; try lia; auto.
  - destruct (Limiter.tokens b) eqn:Et; simpl; split; try lia; auto;
      destruct Hwait; try lia; auto.
  - done.
Qed.

Lemma run_ok steps b : Limiter.bucket_ok b -> Limiter.bucket_ok (Limiter.run steps b).
Proof.
  revert b. induction steps as [|st steps IH]; intros b Hb; [done|].
  unfold Limiter.run in *. simpl. apply IH. by apply do_step_ok.
Qed.

(** X7. With a positive [rate_limit] the bucket, empty at first, never holds
    more than [rate_limit] tokens, however refills, acquisitions and stops
    interleave; a refill that finds it full is dropped. *)
Theorem bucket_within_capacity (rate_limit interval : Z) (steps : list Limiter.step) :
  0 < rate_limit ->
  Z.of_nat (Limiter.tokens (Limiter.run steps (Limiter.init rate_limit interval)))
    <= rate_limit.
Proof.
  intros Hpos.
  destruct (run_ok steps (Limiter.init rate_limit interval)) as [Hcap _].
  - split; simpl; [lia|auto].
  - rewrite run_limiter in Hcap. by apply Hcap.
Qed.

Lemma bucket_within_capacity_witness :
  Z.of_nat (Limiter.tokens
              (Limiter.run [Limiter.Tick; Limiter.Tick; Limiter.Tick; Limiter.Acquire]
                 (Limiter.init 2 60)))
    <= 2.
Proof. apply bucket_within_capacity. lia. Defined.

Lemma do_step_granted b st :
  (Limiter.granted (Limiter.do_step b st) + Limiter.tokens (Limiter.do_step b st)
   <= Limiter.granted b + Limiter.tokens b + Limiter.ticks [st])%nat /\
  (Limiter.running b = false ->
   Limiter.running (Limiter.do_step b st) = false /\
   (Limiter.granted (Limiter.do_step b st) + Limiter.tokens (Limiter.do_step b st)
    = Limiter.granted b + Limiter.tokens b)%nat).
Proof.
  destruct st; simpl; unfold Limiter.fill, Limiter.acquire, Limiter.stop.
  - destruct (Limiter.running b) eqn:Er; simpl.
    + split; [|done]. destruct (Limiter.full b); [lia|].
      destruct (Limiter.waiting b); simpl; lia.
    + split; [lia|]. intros _. by rewrite Er.
  - destruct (Limiter.tokens b) eqn:Et; simpl; split; try lia; intros ->; split; try done; lia.
  - split; [lia|]. intros _. done.
Qed.

Lemma ticks_cons st steps :
  Limiter.ticks (st :: steps) = (Limiter.ticks [st] + Limiter.ticks steps)%nat.
Proof. destruct st; reflexivity. Qed.

Lemma run_granted steps b :
  (Limiter.granted (Limiter.run steps b) + Limiter.tokens (Limiter.run steps b)
   <= Limiter.granted b + Limiter.tokens b + Limiter.ticks steps)%nat.
Proof.
  revert b. induction steps as [|st steps IH]; intros b; [simpl; lia|].
  rewrite ticks_cons.
  change (Limiter.run (st :: steps) b) with (Limiter.run steps (Limiter.do_step b st)).
  specialize (IH (Limiter.do_step b st)).
  destruct (do_step_granted b st) as [Hstep _]. lia.
Qed.

Lemma run_stopped steps b :
  Limiter.running b = false ->
  Limiter.running (Limiter.run steps b) = false /\
  (Limiter.granted (Limiter.run steps b) + Limiter.tokens (Limiter.run steps b)
   = Limiter.granted b + Limiter.tokens b)%nat.
Proof.
  revert b. induction steps as [|st steps IH]; intros b Hb; [done|].
  change (Limiter.run (st :: steps) b) with (Limiter.run steps (Limiter.do_step b st)).
  destruct (do_step_granted b st) as [_ Hstep]. destruct (Hstep Hb) as [Hr Heq].
  destruct (IH _ Hr) as [Hr' Heq']. split; [done|lia].
Qed.

(** X8. The rate bound: starting from the empty bucket of a new limiter, the
    number of [acquire()] calls that have returned, together with the tokens
    still in the queue, never exceeds the number of refills so far; so the
    calls that have returned alone never do, and the first caller waits for
    the first refill. *)
Theorem granted_at_most_refills (rate_limit interval : Z) (steps : list Limiter.step) :
  let b := Limiter.run steps (Limiter.init rate_limit interval) in
  (Limiter.granted b + Limiter.tokens b <= Limiter.ticks steps)%nat /\
  (Limiter.granted b <= Limiter.ticks steps)%nat.
Proof.
  pose proof (run_granted steps (Limiter.init rate_limit interval)) as H.
  simpl in H. simpl. lia.
Qed.

(** X9. After [stop()] the bucket is never refilled: only the tokens left
    in it can still be acquired, and a caller that finds it empty is never
    served. *)
Theorem no_refill_after_stop
    (rate_limit interval : Z) (before after : list Limiter.step) :
  let stopped := Limiter.run (before ++ [Limiter.Stop]) (Limiter.init rate_limit interval) in
  (Limiter.granted (Limiter.run after stopped)
   <= Limiter.granted stopped + Limiter.tokens stopped)%nat /\
  (Limiter.tokens (Limiter.run after stopped) <= Limiter.tokens stopped)%nat.
Proof.
  intros stopped.
  destruct (run_stopped after stopped) as [_ Heq].
  - unfold stopped. rewrite run_app. reflexivity.
  - assert (Limiter.granted stopped <= Limiter.granted (Limiter.run after stopped))%nat; [|lia].
    clear Heq. generalize stopped. clear stopped.
    induction after as [|st after IH]; intros b; [done|].
    unfold Limiter.run in *. simpl. etrans; [|apply IH].
    destruct st; simpl; unfold Limiter.fill, Limiter.acquire, Limiter.stop;
      repeat case_match; simpl; lia.
Qed.

(* ===================================================================== *)
(** ** More properties of the event store and the event bus               *)
(* ===================================================================== *)

Import Lifecycle.

(** X10. [initialize] connects once: after it has succeeded a further call
    does nothing at all, and a call that fails leaves the adapter
    unconnected, so that the next call tries again. *)
Theorem initialize_connects_once (s : state) :
  let '(out, s1, tr) := initialize s in
  (out = Return tt -> redis s1 = true /\ initialize s1 = (Return tt, s1, [])) /\
  (forall e, out = Raise e -> redis s = false /\ redis s1 = false).
Proof.
  destruct s as [clk rf rc db bf hd ru rd mu en conn chan exch subs proc].
  unfold_model. repeat case_inner.
  all: split; [intros Hout; try discriminate Hout; by split
              |intros e' Hout; try discriminate Hout; by split].
Qed.

Lemma initialize_connects_once_witness :
  redis (initialize state0).1.2 = true /\
  initialize (initialize state0).1.2 = (Return tt, (initialize state0).1.2, []).
Proof.
  pose proof (initialize_connects_once state0) as H.
  destruct (initialize state0) as [[out s1] tr] eqn:Hrun.
  vm_compute in Hrun. injection Hrun as <- <- <-.
  apply (proj1 H). reflexivity.
Defined.

(** What [is_processed] answers when Redis does: whether the marker of the
    event is there and has not expired. It changes nothing in Redis. *)
Lemma is_processed_reads_marker (key : string) (s : state) :
  (forall n, redis_fault s n = None) ->
  exists s' tr,
    is_processed (JStr key) s = (Return (live s key), s', tr) /\
    redis_db s' = redis_db s /\ clock s' = clock s /\
    redis_fault s' = redis_fault s.
Proof.
  intros Hfault.
  destruct s as [clk rf rc db bf hd ru rd mu en conn chan exch subs proc].
  simpl in *. unfold live. simpl. unfold_model. cbn [redis_key].
  destruct rd; step; rewrite !Hfault; step;
    (destruct (db !! key) as [expires|]; [destruct (clk <? expires)|]);
    eexists _, _; repeat split; reflexivity.
Qed.

(** X11. The round trip of the idempotency store: once [mark_as_processed]
    has returned for an event, [is_processed] answers true for it during
    the next 2592000 seconds (30 days) and false from then on. *)
Theorem marked_until_expiry (key : string) (s : state) (t : Z) :
  (forall n, redis_fault s n = None) ->
  exists s1 tr1 s2 tr2,
    mark_as_processed (JStr key) s = (Return tt, s1, tr1) /\
    is_processed (JStr key) (set_clock t s1) =
      (Return (t <? clock s + 2592000), s2, tr2).
Proof.
  intros Hfault.
  assert (Hmark : exists s1 tr1,
            mark_as_processed (JStr key) s = (Return tt, s1, tr1) /\
            redis_db s1 = <[key := clock s + 2592000]> (redis_db s) /\
            redis_fault s1 = redis_fault s).
  { destruct s as [clk rf rc db bf hd ru rd mu en conn chan exch subs proc].
    simpl in *. unfold_model. cbn [redis_key].
    destruct rd; step; rewrite !Hfault; step; eexists _, _; repeat split; reflexivity. }
  destruct Hmark as (s1 & tr1 & Hmark & Hdb & Hfault1).
  destruct (is_processed_reads_marker key (set_clock t s1)) as (s2 & tr2 & Hrun & _).
  { intros n. destruct s1; simpl in *. by rewrite Hfault1. }
  exists s1, tr1, s2, tr2. split; [done|]. rewrite Hrun. do 2 f_equal.
  unfold live. destruct s1; simpl in *. by rewrite Hdb, lookup_insert_eq.
Qed.

Lemma marked_until_expiry_witness :
  exists s1 tr1 s2 tr2,
    mark_as_processed (JStr "e1") state0 = (Return tt, s1, tr1) /\
    is_processed (JStr "e1") (set_clock 2592000 s1) =
      (Return (2592000 <? clock state0 + 2592000), s2, tr2).
Proof. apply (marked_until_expiry "e1" state0 2592000). reflexivity. Defined.

(** X12. Marking one event leaves the others as they were: for another
    event id [is_processed] answers after the marking what it answered
    before. *)
Theorem mark_leaves_other_events (key other : string) (s : state) :
  key <> other ->
  (forall n, redis_fault s n = None) ->
  exists s1 tr1 s2 tr2,
    mark_as_processed (JStr key) s = (Return tt, s1, tr1) /\
    is_processed (JStr other) s1 = (Return (live s other), s2, tr2).
Proof.
  intros Hne Hfault.
  assert (Hmark : exists s1 tr1,
            mark_as_processed (JStr key) s = (Return tt, s1, tr1) /\
            redis_db s1 = <[key := clock s + 2592000]> (redis_db s) /\
            redis_fault s1 = redis_fault s /\ clock s1 = clock s).
  { destruct s as [clk rf rc db bf hd ru rd mu en conn chan exch subs proc].
    simpl in *. unfold_model. cbn [redis_key].
    destruct rd; step; rewrite !Hfault; step; eexists _, _; repeat split; reflexivity. }
  destruct Hmark as (s1 & tr1 & Hmark & Hdb & Hfault1 & Hclock).
  destruct (is_processed_reads_marker other s1) as (s2 & tr2 & Hrun & _).
  { intros n. by rewrite Hfault1. }
  exists s1, tr1, s2, tr2. split; [done|]. rewrite Hrun. do 2 f_equal.
  unfold live. by rewrite Hdb, Hclock, lookup_insert_ne.
Qed.

Lemma mark_leaves_other_events_witness :
  exists s1 tr1 s2 tr2,
    mark_as_processed (JStr "e1") state0 = (Return tt, s1, tr1) /\
    is_processed (JStr "e2") s1 = (Return (live state0 "e2"), s2, tr2).
Proof.
  apply (mark_leaves_other_events "e1" "e2" state0).
  - discriminate.
  - reflexivity.
Defined.

(** X13. A payload that is a JSON object without an [event_id] (or with a
    null, empty or zero one) is rejected without requeue; neither the store
    nor the handler is reached. *)
Theorem missing_event_id_rejected
    (h : handler) (items : list (string * json)) (s : state) :
  truthy (lookup_item "event_id" items) = false ->
  deliver h (Json (JDict items)) s =
    (Raise (MessageProcessError None), set_processed true s,
     [Loads;
      Log LError "Received event without event_id. Rejecting message." None;
      BasicReject false]).
Proof.
  intros Hid. destruct s. unfold_model. rewrite Hid. reflexivity.
Qed.

Lemma missing_event_id_rejected_witness :
  deliver ok_handler (Json (JDict [("text", JStr "X")])) state0 =
    (Raise (MessageProcessError None), set_processed true state0,
     [Loads;
      Log LError "Received event without event_id. Rejecting message." None;
      BasicReject false]).
Proof. apply (missing_event_id_rejected ok_handler [("text", JStr "X")] state0). reflexivity. Defined.

(** X14. A payload that is JSON but not an object (a list, a string, a
    number, [null]) has no [get]: the [AttributeError] is caught by the
    generic clause and the message is rejected with requeue, again without
    reaching the store or the handler. *)
Theorem non_object_payload_requeued (h : handler) (v : json) (s : state) :
  (forall items, v <> JDict items) ->
  deliver h (Json v) s =
    (Raise (MessageProcessError None), set_processed true s,
     [Loads; Log LException "Error processing message." (Some AttributeError);
      BasicReject true]).
Proof.
  intros Hv. destruct s. destruct v; try reflexivity.
  by destruct (Hv items).
Qed.

Lemma non_object_payload_requeued_witness :
  deliver ok_handler (Json (JList [JInt 1; JInt 2])) state0 =
    (Raise (MessageProcessError None), set_processed true state0,
     [Loads; Log LException "Error processing message." (Some AttributeError);
      BasicReject true]).
Proof. apply (non_object_payload_requeued ok_handler (JList [JInt 1; JInt 2]) state0). discriminate. Defined.

(** X15. Every delivery settles its message exactly once, by one
    acknowledgement or one rejection, whatever the body, the handler, the
    store and the clock do; [on_message] returns normally exactly when the
    message was acknowledged. *)
Theorem message_settled_exactly_once (h : handler) (b : body) (s : state) :
  let '(out, s', tr) := deliver h b s in
  count_settled tr = 1%nat /\
  (out = Return tt <-> BasicAck ∈ tr) /\
  processed s' = true.
Proof.
  destruct s as [clk rf rc db bf hd ru rd mu en conn chan exch subs proc].
  unfold_model. repeat case_inner.
  all: cbn [count_settled].
  all: split; [reflexivity|]; split; [|reflexivity].
  all: split;
    [intros Hout; try discriminate Hout; repeat (try (left; done); right)
    |intros Hin; try reflexivity;
     repeat (apply elem_of_cons in Hin as [Hin|Hin]; [discriminate|]);
     by apply elem_of_nil in Hin].
Qed.

(** X16. The handler is invoked at most once per delivery, with the parsed
    payload, and only for an object whose [event_id] is set and has no live
    marker in the store. *)
Theorem handler_invoked_only_for_novel_events (h : handler) (b : body) (s : state) :
  let '(out, s', tr) := deliver h b s in
  (handled s' = handled s \/
   exists data, b = Json data /\ handled s' = handled s ++ [data]) /\
  (forall data, Handler data ∈ tr ->
     b = Json data /\
     exists items key,
       data = JDict items /\
       truthy (lookup_item "event_id" items) = true /\
       redis_key (lookup_item "event_id" items) = Return key /\
       live s key = false).
Proof.
  destruct s as [clk rf rc db bf hd ru rd mu en conn chan exch subs proc].
  unfold live. cbn [redis_db clock]. unfold_model. repeat case_inner.
  all: split; [first [by left | right; eexists; split; reflexivity]|].
  all: intros data Hin.
  all: repeat (apply elem_of_cons in Hin as [Hin|Hin]; [try discriminate Hin|]).
  all: try (by apply elem_of_nil in Hin).
  all: injection Hin as ->.
  all: split; [reflexivity|].
  all: eexists _, _; split; [reflexivity|]; split; [assumption|]; split; [eassumption|].
  all: repeat match goal with
              | H : _ !! _ = _ |- _ => rewrite H
              | H : (_ <? _) = _ |- _ => rewrite H
              end.
  all: try reflexivity.
  all: discriminate.
Qed.

Lemma handler_invoked_only_for_novel_events_witness :
  Json notification = Json notification /\
  exists items key,
    notification = JDict items /\
    truthy (lookup_item "event_id" items) = true /\
    redis_key (lookup_item "event_id" items) = Return key /\
    live state0 key = false.
Proof.
  pose proof (handler_invoked_only_for_novel_events ok_handler (Json notification) state0) as H.
  destruct (deliver ok_handler (Json notification) state0) as [[out s'] tr] eqn:Hrun.
  vm_compute in Hrun. injection Hrun as <- <- <-.
  apply (proj2 H notification).
  cbn. repeat constructor.
Defined.

(** X17. When the store fails while the event is looked up, the error is
    logged twice (by [is_processed], then by the generic clause), the
    message is rejected with requeue and the handler is not invoked. *)
Theorem store_error_requeues
    (h : handler) (items : list (string * json)) (s : state) (e : exn) :
  truthy (lookup_item "event_id" items) = true ->
  redis s = true ->
  redis_fault s (redis_calls s) = Some e ->
  isinstance_RedisError e = true ->
  isinstance_JSONDecodeError e = false ->
  deliver h (Json (JDict items)) s =
    (Raise (MessageProcessError None),
     set_processed true (set_redis_calls (S (redis_calls s)) s),
     [Loads; IsProcessed (lookup_item "event_id" items);
      Log LException "Error checking if event is processed." (Some e);
      Log LException "Error processing message." (Some e);
      BasicReject true]).
Proof.
  intros Hid Hconn Hfault Hredis Hjson. destruct s. simpl in *. subst.
  unfold_model. rewrite Hid. step. rewrite Hfault. step.
  rewrite Hredis. step. rewrite Hjson. reflexivity.
Qed.

Lemma store_error_requeues_witness :
  deliver ok_handler (Json notification)
    (set_redis true (Scenarios.with_redis_fault Scenarios.redis_down state0)) =
    (Raise (MessageProcessError None),
     set_processed true
       (set_redis_calls 1
          (set_redis true (Scenarios.with_redis_fault Scenarios.redis_down state0))),
     [Loads; IsProcessed (JStr "e1");
      Log LException "Error checking if event is processed."
        (Some (RedisError "Connection refused"));
      Log LException "Error processing message."
        (Some (RedisError "Connection refused"));
      BasicReject true]).
Proof.
  apply (store_error_requeues ok_handler Scenarios.notification_items
           (set_redis true (Scenarios.with_redis_fault Scenarios.redis_down state0))
           (RedisError "Connection refused")).
  - reflexivity.
  - reflexivity.
  - reflexivity.
  - reflexivity.
  - reflexivity.
Defined.

(** X18. When the handler has returned but the marking fails, the message
    is rejected with requeue and the store is left without the marker: the
    handler has run, and it will run again on the redelivery. *)
Theorem mark_failure_requeues_handled_event
    (h : handler) (items : list (string * json)) (eid : string) (s : state) (e : exn) :
  lookup_item "event_id" items = JStr eid ->
  eid <> "" ->
  redis s = true ->
  redis_fault s (redis_calls s) = None ->
  redis_fault s (S (redis_calls s)) = Some e ->
  isinstance_RedisError e = true ->
  isinstance_JSONDecodeError e = false ->
  live s eid = false ->
  h (handled s) (JDict items) = Return tt ->
  exists s',
    deliver h (Json (JDict items)) s =
      (Raise (MessageProcessError None), s',
       [Loads; IsProcessed (JStr eid); RedisExists eid 0;
        Log LDebug "Checked if event is processed" None;
        Handler (JDict items);
        MarkAsProcessed (JStr eid);
        Log LException "Error marking event as processed." (Some e);
        Log LException "Error processing message." (Some e);
        BasicReject true]) /\
    redis_db s' = redis_db s /\
    handled s' = handled s ++ [JDict items].
Proof.
  intros Hid Hne Hconn Hf0 Hf1 Hredis Hjson Hlive Hh.
  destruct s as [clk rf rc db bf hd ru rd mu en conn chan exch subs proc].
  simpl in *. subst. unfold live in Hlive. simpl in Hlive.
  unfold_model. rewrite Hid, truthy_JStr by done. step.
  rewrite Hf0. cbn [redis_key]. step.
  assert (Hfound : match db !! eid with
                   | Some expires => if clk <? expires then 1 else 0
                   | None => 0
                   end = 0).
  { destruct (_ !! eid); [by rewrite Hlive | done]. }
  rewrite Hfound. cbn [Z.eqb]. step. rewrite Hh. step. rewrite Hf1. step.
  rewrite Hredis. step. rewrite Hjson. step.
  eexists. repeat split; reflexivity.
Qed.

Lemma mark_failure_requeues_handled_event_witness :
  exists s',
    deliver ok_handler (Json notification)
      (set_redis true (Scenarios.with_redis_fault (Scenarios.redis_fails_at 1) state0)) =
      (Raise (MessageProcessError None), s',
       [Loads; IsProcessed (JStr "e1"); RedisExists "e1" 0;
        Log LDebug "Checked if event is processed" None;
        Handler notification;
        MarkAsProcessed (JStr "e1");
        Log LException "Error marking event as processed."
          (Some (RedisError "Connection reset"));
        Log LException "Error processing message."
          (Some (RedisError "Connection reset"));
        BasicReject true]) /\
    redis_db s' =
      redis_db (set_redis true (Scenarios.with_redis_fault (Scenarios.redis_fails_at 1) state0)) /\
    handled s' =
      handled (set_redis true (Scenarios.with_redis_fault (Scenarios.redis_fails_at 1) state0))
        ++ [notification].
Proof.
  apply (mark_failure_requeues_handled_event ok_handler Scenarios.notification_items "e1"
           (set_redis true (Scenarios.with_redis_fault (Scenarios.redis_fails_at 1) state0))
           (RedisError "Connection reset")).
  - reflexivity.
  - discriminate.
  - reflexivity.
  - reflexivity.
  - reflexivity.
  - reflexivity.
  - reflexivity.
  - reflexivity.
  - reflexivity.
Defined.

(** X19. The [try] block of [on_message] covers the handler: a handler that
    raises [json.JSONDecodeError] is taken for a malformed payload, and the
    message is rejected without requeue. *)
Theorem handler_decode_error_is_poison
    (h : handler) (items : list (string * json)) (eid : string) (s : state) :
  lookup_item "event_id" items = JStr eid ->
  eid <> "" ->
  redis s = true ->
  (forall n, redis_fault s n = None) ->
  live s eid = false ->
  h (handled s) (JDict items) = Raise JSONDecodeError ->
  exists s',
    deliver h (Json (JDict items)) s =
      (Raise (MessageProcessError (Some JSONDecodeError)), s',
       [Loads; IsProcessed (JStr eid); RedisExists eid 0;
        Log LDebug "Checked if event is processed" None;
        Handler (JDict items);
        Log LException "Invalid JSON in message." (Some JSONDecodeError);
        BasicReject false]) /\
    redis_db s' = redis_db s.
Proof.
  intros Hid Hne Hconn Hfault Hlive Hh.
  destruct s as [clk rf rc db bf hd ru rd mu en conn chan exch subs proc].
  simpl in *. subst. unfold live in Hlive. simpl in Hlive.
  unfold_model. rewrite Hid, truthy_JStr by done. step.
  rewrite !Hfault. cbn [redis_key]. step.
  assert (Hfound : match db !! eid with
                   | Some expires => if clk <? expires then 1 else 0
                   | None => 0
                   end = 0).
  { destruct (_ !! eid); [by rewrite Hlive | done]. }
  rewrite Hfound. cbn [Z.eqb]. step. rewrite Hh. step.
  cbn [isinstance_JSONDecodeError]. step.
  eexists. split; reflexivity.
Qed.

Lemma handler_decode_error_is_poison_witness :
  exists s',
    deliver Scenarios.decoding_handler (Json notification) (set_redis true state0) =
      (Raise (MessageProcessError (Some JSONDecodeError)), s',
       [Loads; IsProcessed (JStr "e1"); RedisExists "e1" 0;
        Log LDebug "Checked if event is processed" None;
        Handler notification;
        Log LException "Invalid JSON in message." (Some JSONDecodeError);
        BasicReject false]) /\
    redis_db s' = redis_db (set_redis true state0).
Proof.
  apply (handler_decode_error_is_poison Scenarios.decoding_handler Scenarios.notification_items "e1"
           (set_redis true state0)).
  - reflexivity.
  - discriminate.
  - reflexivity.
  - reflexivity.
  - reflexivity.
  - reflexivity.
Defined.

(** X20. [NotificationHandler.handle] reads [message.text] from the dict
    that [on_message] passes, which raises [AttributeError]: a Notification
    event is never acknowledged nor marked, it is rejected with requeue each
    time it is delivered. *)
Theorem notification_is_requeued
    (items : list (string * json)) (eid : string) (s : state) :
  lookup_item "event_id" items = JStr eid ->
  eid <> "" ->
  redis s = true ->
  (forall n, redis_fault s n = None) ->
  live s eid = false ->
  exists s',
    deliver Handlers.NotificationHandler_handle (Json (JDict items)) s =
      (Raise (MessageProcessError None), s',
       [Loads; IsProcessed (JStr eid); RedisExists eid 0;
        Log LDebug "Checked if event is processed" None;
        Handler (JDict items);
        Log LException "Error processing message." (Some AttributeError);
        BasicReject true]) /\
    redis_db s' = redis_db s.
Proof.
  intros Hid Hne Hconn Hfault Hlive.
  apply handler_error_absorbed; try done.
  unfold Handlers.NotificationHandler_handle.
  destruct items as [|item items]; [|reflexivity].
  simpl in Hid. discriminate.
Qed.

Lemma notification_is_requeued_witness :
  exists s',
    deliver Handlers.NotificationHandler_handle (Json notification) (set_redis true state0) =
      (Raise (MessageProcessError None), s',
       [Loads; IsProcessed (JStr "e1"); RedisExists "e1" 0;
        Log LDebug "Checked if event is processed" None;
        Handler notification;
        Log LException "Error processing message." (Some AttributeError);
        BasicReject true]) /\
    redis_db s' = redis_db (set_redis true state0).
Proof.
  apply (notification_is_requeued Scenarios.notification_items "e1" (set_redis true state0)).
  - reflexivity.
  - discriminate.
  - reflexivity.
  - reflexivity.
  - reflexivity.
Defined.

(** X21. [connect] is lazy and idempotent: once it has returned, a further
    call finds the connection and the channel open and the exchange
    declared, and asks nothing of the broker. *)
Theorem connect_idempotent (s : state) :
  let '(out, s1, tr) := connect s in
  out = Return tt ->
  connect s1 = (Return tt, s1, []) /\
  connection s1 = Some {| is_closed := false |} /\
  channel s1 = Some {| is_closed := false |} /\
  exchange s1 = true.
Proof.
  destruct s as [clk rf rc db bf hd ru rd mu en conn chan exch subs proc].
  unfold_model. repeat case_inner.
  all: intros Hout; try discriminate Hout.
  all: repeat match goal with h : handle |- _ => destruct h end.
  all: simpl in *; subst.
  all: by repeat split.
Qed.

Lemma connect_idempotent_witness :
  connect (connect state0).1.2 = (Return tt, (connect state0).1.2, []) /\
  connection (connect state0).1.2 = Some {| is_closed := false |} /\
  channel (connect state0).1.2 = Some {| is_closed := false |} /\
  exchange (connect state0).1.2 = true.
Proof.
  pose proof (connect_idempotent state0) as H.
  destruct (connect state0) as [[out s1] tr] eqn:Hrun.
  vm_compute in Hrun. injection Hrun as <- <- <-.
  apply H. reflexivity.
Defined.

(** X22. [publish] connects first and then sends the event once, with the
    event type as routing key, and nothing else is ever published; it never
    touches the subscriptions. *)
Theorem publish_once_by_event_type (ev : Event) (s : state) :
  let '(out, s', tr) := publish ev s in
  subscriptions s' = subscriptions s /\
  (forall routing_key,
     Broker ExchangePublish routing_key ∈ tr -> routing_key = event_type ev) /\
  (out = Return tt ->
     exists pre,
       tr = pre ++ [Broker ExchangePublish (event_type ev);
                    Log LInfo "Published event" None] /\
       forall routing_key, Broker ExchangePublish routing_key ∉ pre).
Proof.
  destruct s as [clk rf rc db bf hd ru rd mu en conn chan exch subs proc].
  unfold_model. repeat case_inner.
  all: split; [reflexivity|]; split.
  all: first
    [ intros routing_key Hin; elem_of_cases Hin; by injection Hin as ->
    | intros Hout; discriminate Hout
    | intros _;
      match goal with
      | |- exists pre, ?l = _ /\ _ => exists (take (length l - 2) l)
      end;
      split; [reflexivity|];
      intros routing_key Hin; cbn in Hin; elem_of_cases Hin ].
Qed.

Lemma publish_once_by_event_type_witness :
  exists pre,
    (publish {| event_type := "Notification"; dict := notification |} state0).2
    = pre ++ [Broker ExchangePublish "Notification"; Log LInfo "Published event" None] /\
    forall routing_key, Broker ExchangePublish routing_key ∉ pre.
Proof.
  pose proof (publish_once_by_event_type
                {| event_type := "Notification"; dict := notification |} state0) as H.
  destruct (publish {| event_type := "Notification"; dict := notification |} state0)
    as [[out s1] tr] eqn:Hrun.
  vm_compute in Hrun. injection Hrun as <- <- <-.
  apply (proj2 (proj2 H)). reflexivity.
Defined.

(** X23. Subscriptions accumulate in the order of the calls: a second
    [subscribe] on a connected bus declares, binds and consumes its own queue
    without connecting again, and leaves the first subscription in place. *)
Theorem subscribe_twice
    (name1 name2 : string) (h1 h2 : handler) (s : state) :
  (forall op, broker_fault s op = None) ->
  exists s1 tr1 s2,
    subscribe name1 h1 s = (Return tt, s1, tr1) /\
    subscribe name2 h2 s1 =
      (Return tt, s2,
       [Broker DeclareQueue (name2 +:+ "_queue"); Broker QueueBind name2;
        Log LInfo "Queue bound to exchange." None;
        Broker QueueConsume (name2 +:+ "_queue")]) /\
    subscriptions s2 = subscriptions s ++ [(name1, h1); (name2, h2)].
Proof.
  intros Hfault.
  destruct s as [clk rf rc db bf hd ru rd mu en conn chan exch subs proc].
  simpl in Hfault. unfold_model.
  destruct conn as [[[]]|]; destruct chan as [[[]]|]; destruct exch;
    do 8 (step; rewrite ?Hfault);
    eexists _, _, _; (split; [reflexivity|]);
    do 8 (step; rewrite ?Hfault);
    (split; [reflexivity|]);
    symmetry; apply (List.app_assoc subs [(name1, h1)] [(name2, h2)]).
Qed.

Lemma subscribe_twice_witness :
  exists s1 tr1 s2,
    subscribe "Notification" ok_handler state0 = (Return tt, s1, tr1) /\
    subscribe "UpdateFinancialInstruments" ok_handler s1 =
      (Return tt, s2,
       [Broker DeclareQueue ("UpdateFinancialInstruments" +:+ "_queue");
        Broker QueueBind "UpdateFinancialInstruments";
        Log LInfo "Queue bound to exchange." None;
        Broker QueueConsume ("UpdateFinancialInstruments" +:+ "_queue")]) /\
    subscriptions s2 =
      subscriptions state0
        ++ [("Notification", ok_handler); ("UpdateFinancialInstruments", ok_handler)].
Proof.
  apply (subscribe_twice "Notification" "UpdateFinancialInstruments"
           ok_handler ok_handler state0).
  reflexivity.
Defined.

(** X24. Closing twice is safe: after a [close] that returned, a further
    [close] closes nothing and returns, whatever the broker would answer. *)
Theorem close_twice_is_safe
    (channel_close connection_close again1 again2 : option exn)
    (s s1 : state) (tr : list close_event) :
  close channel_close connection_close s = (Return tt, s1, tr) ->
  close again1 again2 s1 = (Return tt, s1, []).
Proof.
  destruct s as [clk rf rc db bf hd ru rd mu en conn chan exch subs proc].
  unfold close, is_open. cbn [channel connection set_channel set_connection].
  destruct chan as [[[]]|]; destruct conn as [[[]]|];
    destruct channel_close; destruct connection_close; cbn;
    intros H; simplify_eq; reflexivity.
Qed.

Lemma close_twice_is_safe_witness :
  close (Some (AMQPError "gone")) (Some (AMQPError "gone"))
    (close None None (Scenarios.connected state0)).1.2
  = (Return tt, (close None None (Scenarios.connected state0)).1.2, []).
Proof.
  apply (close_twice_is_safe None None _ _ (Scenarios.connected state0) _
           (close None None (Scenarios.connected state0)).2).
  reflexivity.
Defined.

(** X25. [close] does not reset [self.exchange]: a [connect] after a
    [close] connects and opens a channel again, finds [self.exchange] still
    set and does not declare the exchange again, whatever the broker would
    answer to a declaration. *)
Theorem connect_after_close_keeps_exchange (s s1 : state) (tr : list close_event) :
  is_open (connection s) = true ->
  is_open (channel s) = true ->
  exchange s = true ->
  broker_fault s ConnectRobust = None ->
  broker_fault s OpenChannel = None ->
  close None None s = (Return tt, s1, tr) ->
  exchange s1 = true /\
  exists s2,
    connect s1 =
      (Return tt, s2,
       [Broker ConnectRobust (rabbitmq_url s); Log LDebug "Connected to RabbitMQ." None;
        Broker OpenChannel ""; Log LDebug "RabbitMQ Channel opened" None]) /\
    is_open (connection s2) = true /\
    is_open (channel s2) = true /\
    exchange s2 = true.
Proof.
  destruct s as [clk rf rc db bf hd ru rd mu en conn chan exch subs proc].
  unfold close, is_open. cbn [channel connection set_channel set_connection exchange broker_fault rabbitmq_url].
  destruct chan as [[[]]|]; destruct conn as [[[]]|]; try discriminate.
  intros _ _ -> Hc Hch H. cbn in H. simplify_eq.
  split; [reflexivity|].
  unfold_model. rewrite Hc. step. rewrite Hch. step.
  eexists. split; [reflexivity|]. by repeat split.
Qed.

Lemma connect_after_close_keeps_exchange_witness :
  exchange (close None None (Scenarios.connected state0)).1.2 = true /\
  exists s2,
    connect (close None None (Scenarios.connected state0)).1.2 =
      (Return tt, s2,
       [Broker ConnectRobust (rabbitmq_url (Scenarios.connected state0));
        Log LDebug "Connected to RabbitMQ." None;
        Broker OpenChannel ""; Log LDebug "RabbitMQ Channel opened" None]) /\
    is_open (connection s2) = true /\
    is_open (channel s2) = true /\
    exchange s2 = true.
Proof.
  apply (connect_after_close_keeps_exchange (Scenarios.connected state0) _
           (close None None (Scenarios.connected state0)).2).
  - reflexivity.
  - reflexivity.
  - reflexivity.
  - reflexivity.
  - reflexivity.
  - reflexivity.
Defined.

(** X26. Entering the bus initialises the event store before it connects to
    the broker: when the store cannot be reached, [__aenter__] raises and the
    broker is not contacted; when it returns, the store is connected, the
    connection and the channel are open and the exchange is declared. *)
Theorem aenter_store_before_broker (s : state) :
  let '(out, s', tr) := aenter s in
  (forall e,
     redis s = false -> redis_fault s (redis_calls s) = Some e ->
     out = Raise e /\ (forall op arg, Broker op arg ∉ tr) /\
     connection s' = connection s) /\
  (out = Return tt ->
     redis s' = true /\
     connection s' = Some {| is_closed := false |} /\
     channel s' = Some {| is_closed := false |} /\
     exchange s' = true).
Proof.
  destruct s as [clk rf rc db bf hd ru rd mu en conn chan exch subs proc].
  unfold aenter. unfold_model. repeat case_inner.
  all: split.
  all: first
    [ intros e' Hrd Hfault;
      first
        [ discriminate Hrd
        | congruence
        | replace e' with e in * by congruence;
          split; [reflexivity|]; split; [|reflexivity];
          intros op arg Hin; elem_of_cases Hin ]
    | intros Hout;
      first
        [ discriminate Hout
        | repeat match goal with h : handle |- _ => destruct h end;
          simpl in *; subst; by repeat split ] ].
Qed.

Lemma aenter_store_before_broker_witness :
  (aenter (Scenarios.with_redis_fault Scenarios.redis_down state0)).1.1
    = Raise (RedisError "Connection refused") /\
  (forall op arg,
     Broker op arg ∉ (aenter (Scenarios.with_redis_fault Scenarios.redis_down state0)).2) /\
  connection (aenter (Scenarios.with_redis_fault Scenarios.redis_down state0)).1.2
    = connection (Scenarios.with_redis_fault Scenarios.redis_down state0).
Proof.
  pose proof (aenter_store_before_broker
                (Scenarios.with_redis_fault Scenarios.redis_down state0)) as H.
  destruct (aenter (Scenarios.with_redis_fault Scenarios.redis_down state0))
    as [[out s1] tr] eqn:Hrun.
  apply (proj1 H (RedisError "Connection refused")); reflexivity.
Defined.

(* ===================================================================== *)
(** ** The end-of-day filter                                              *)
(* ===================================================================== *)

Lemma comprehension_lookup (keys : list string) (d : gmap string json) (key : string) :
  Domain.comprehension keys d !! key =
    if decide (key ∈ keys) then Some (Domain.dict_get d key) else None.
Proof.
  unfold Domain.comprehension.
  induction keys as [|k keys IH].
  - destruct (decide (key ∈ [])) as [Hin|_]; [by apply elem_of_nil in Hin|].
    apply lookup_empty.
  - rewrite fmap_cons, list_to_map_cons.
    destruct (decide (k = key)) as [->|Hne].
    + rewrite lookup_insert_eq.
      destruct (decide (key ∈ key :: keys)) as [_|Hnot]; [done|].
      destruct Hnot. left.
    + rewrite lookup_insert_ne by done. rewrite IH.
      destruct (decide (key ∈ keys)) as [Hin|Hnot];
        destruct (decide (key ∈ k :: keys)) as [Hin'|Hnot']; try done.
      * destruct Hnot'. by right.
      * apply elem_of_cons in Hin' as [Heq|Hin']; [by subst|done].
Qed.

(** X27. [filter_end_of_day_data] gives two dicts that always have their
    eight and thirteen keys, whatever the input holds: a field of the input
    is copied, a field it lacks is [None], and every other field of the
    input is dropped. *)
Theorem filter_end_of_day_data_fields (end_of_day_data : gmap string json) (key : string) :
  let '(historical_data, technical_data) := Domain.filter_end_of_day_data end_of_day_data in
  historical_data !! key =
    (if decide (key ∈ Domain.historical_data_keys)
     then Some (default JNull (end_of_day_data !! key)) else None) /\
  technical_data !! key =
    (if decide (key ∈ Domain.technical_data_keys)
     then Some (default JNull (end_of_day_data !! key)) else None) /\
  size historical_data = 8%nat /\
  size technical_data = 13%nat.
Proof.
  unfold Domain.filter_end_of_day_data.
  split; [apply comprehension_lookup|]. split; [apply comprehension_lookup|].
  assert (Hsize : forall keys, NoDup keys ->
            size (Domain.comprehension keys end_of_day_data) = length keys).
  { intros keys Hnd.
    induction Hnd as [|k keys Hk Hnd IH]; [apply map_size_empty|].
    unfold Domain.comprehension in *. rewrite fmap_cons, list_to_map_cons.
    rewrite map_size_insert_None; [simpl; by f_equal|].
    fold (Domain.comprehension keys end_of_day_data).
    rewrite comprehension_lookup. by destruct (decide (k ∈ keys)). }
  split; rewrite Hsize; try reflexivity.
  - unfold Domain.historical_data_keys.
    repeat (apply NoDup_cons; split; [intros Hin; elem_of_cases Hin|]). apply NoDup_nil_2.
  - unfold Domain.technical_data_keys.
    repeat (apply NoDup_cons; split; [intros Hin; elem_of_cases Hin|]). apply NoDup_nil_2.
Qed.
